(** * ZeroDTERecommender: a shallow embedding of [zerodte_recommender.py]

    The recommender selects strikes for a bull put and a bear call credit
    spread, approximates their Black-Scholes deltas, sizes the position, and
    scores the trend of a downloaded price history.

    Number model.  Python floats and ints that the program reads or computes
    with [+ - * / // floor ceil] are exact rationals ([Q]) or integers ([Z]);
    rounding of binary floating point is not modelled.  Values that pass
    through [np.log], [np.sqrt] or [norm.cdf] are numpy floats: a real
    number or one of the IEEE specials ([npfloat]). *)

From Stdlib Require Import ZArith QArith Qround Qreals Reals Lia Psatz.
From Stdlib Require Import Bool String List.
Import ListNotations.

(** ** Exceptions *)

Inductive exn : Type :=
| ZeroDivisionError
| IndexError
| DownloadError (msg : string).

Inductive result (A : Type) : Type :=
| Ok (a : A)
| Raise (e : exn).

Arguments Ok {A} a.
Arguments Raise {A} e.

Definition bind {A B : Type} (m : result A) (k : A -> result B) : result B :=
  match m with
  | Ok a => k a
  | Raise e => Raise e
  end.

Notation "x <- m ;; k" := (bind m (fun x => k))
  (at level 61, m at next level, right associativity).

Definition returns {A : Type} (m : result A) : bool :=
  match m with
  | Ok _ => true
  | Raise _ => false
  end.

(** ** Python arithmetic on exact numbers *)

Definition Qltb (a b : Q) : bool := negb (Qle_bool b a).

(** [a / b] on Python numbers: raises when the divisor is zero. *)
Definition py_truediv (a b : Q) : result Q :=
  if Qeq_bool b 0 then Raise ZeroDivisionError else Ok (a / b)%Q.

(** [a // b]: floor division, raising on a zero divisor. *)
Definition py_floordiv (a b : Q) : result Z :=
  if Qeq_bool b 0 then Raise ZeroDivisionError else Ok (Qfloor (a / b)).

(** ** numpy floats *)

Inductive npfloat : Type :=
| Fin (x : R)
| PInf
| NInf
| NaN.

(** [np.log]: nan below zero, -inf at zero (both with a warning only). *)
Definition np_log (q : Q) : npfloat :=
  if Qltb 0 q then Fin (ln (Q2R q))
  else if Qeq_bool q 0 then NInf
  else NaN.

Definition fneg (x : npfloat) : npfloat :=
  match x with
  | Fin a => Fin (- a)
  | PInf => NInf
  | NInf => PInf
  | NaN => NaN
  end.

Definition fadd (x y : npfloat) : npfloat :=
  match x, y with
  | NaN, _ | _, NaN => NaN
  | Fin a, Fin b => Fin (a + b)
  | PInf, NInf | NInf, PInf => NaN
  | PInf, _ | _, PInf => PInf
  | NInf, _ | _, NInf => NInf
  end.

Definition fsub (x y : npfloat) : npfloat := fadd x (fneg y).

(** Division of a numpy float by a finite numpy float: a zero divisor gives
    an infinity or nan, never an exception. *)
Definition fdiv (x : npfloat) (d : R) : npfloat :=
  match x with
  | NaN => NaN
  | Fin a =>
      if Req_EM_T d 0
      then (if Rlt_dec 0 a then PInf else if Rlt_dec a 0 then NInf else NaN)
      else Fin (a / d)
  | PInf => if Rlt_dec d 0 then NInf else PInf
  | NInf => if Rlt_dec d 0 then PInf else NInf
  end.

(** [x > c] and [x < c] against a finite constant; false on nan. *)
Definition fgtb (x : npfloat) (c : R) : bool :=
  match x with
  | Fin a => if Rlt_dec c a then true else false
  | PInf => true
  | NInf | NaN => false
  end.

Definition fltb (x : npfloat) (c : R) : bool :=
  match x with
  | Fin a => if Rlt_dec a c then true else false
  | NInf => true
  | PInf | NaN => false
  end.

(** ** The recommender object *)

Record Recommender : Type := {
  min_strike_distance : Q;
  strike_gap : Z;
  max_strike_width : Z;
  ema_window : nat;
  ema_trend_window : nat
}.

(** [ZeroDTERecommender.__init__] *)
Definition init : Recommender := {|
  min_strike_distance := 15 # 10000;
  strike_gap := 5;
  max_strike_width := 5;
  ema_window := 5;
  ema_trend_window := 260
|}.

Inductive OptionType : Type := Put | Call.

Record StrikeRec : Type := {
  short_strike : Z;
  long_strike : Z;
  short_delta : npfloat;
  long_delta : npfloat;
  distance_from_atm : Q;
  strike_width : Z
}.

Record SpreadMetrics : Type := {
  estimated_credit : Z;
  max_loss_per_spread : Z;
  contracts_needed : Z;
  total_credit : Z;
  total_margin : Z
}.

(** [{**rec, **metrics}]: the two dictionaries have disjoint keys. *)
Record Spread : Type := {
  strikes : StrikeRec;
  metrics : SpreadMetrics
}.

Record Recommendation : Type := {
  bull_put_spread : Spread;
  bear_call_spread : Spread;
  top_contracts_needed : Z;
  top_estimated_credit : Z;
  top_max_loss_per_spread : Z
}.

(** The strike selection of [get_strike_recommendations] (the [if]/[else]
    on the option type): short strike, long strike, distance from the
    money.  [math.floor] and [math.ceil] return Python ints. *)
Definition select_strikes (self : Recommender) (spx_price : Q)
    (option_type : OptionType) : result (Z * Z * Q) :=
  match option_type with
  | Put =>
      let strike_distance := (spx_price * min_strike_distance self)%Q in
      let target_strike := (spx_price - strike_distance)%Q in
      q <- py_truediv target_strike (inject_Z (strike_gap self)) ;;
      let short := (Qfloor q * strike_gap self)%Z in
      let long := (short - strike_gap self)%Z in
      Ok (short, long, (spx_price - inject_Z short)%Q)
  | Call =>
      let strike_distance := (spx_price * min_strike_distance self)%Q in
      let target_strike := (spx_price + strike_distance)%Q in
      q <- py_truediv target_strike (inject_Z (strike_gap self)) ;;
      let short := (Qceiling q * strike_gap self)%Z in
      let long := (short + strike_gap self)%Z in
      Ok (short, long, (inject_Z short - spx_price)%Q)
  end.

(** [calculate_spread_metrics]; the strikes are the Python ints that
    [get_strike_recommendations] produces. *)
Definition calculate_spread_metrics (short long : Z)
    (target_credit max_margin : Q) : result SpreadMetrics :=
  let width := Z.abs (short - long) in
  let estimated_credit_per_spread := (width * 30)%Z in
  let max_loss := (width * 100 - estimated_credit_per_spread)%Z in
  q <- py_truediv target_credit (inject_Z estimated_credit_per_spread) ;;
  let contracts := Qceiling q in
  let total_margin_needed := (contracts * max_loss)%Z in
  contracts' <-
    (if Qltb max_margin (inject_Z total_margin_needed)
     then (f <- py_floordiv max_margin (inject_Z max_loss) ;;
           Ok (Z.max 1 f))
     else Ok contracts) ;;
  Ok {| estimated_credit := estimated_credit_per_spread;
        max_loss_per_spread := max_loss;
        contracts_needed := contracts';
        total_credit := (estimated_credit_per_spread * contracts')%Z;
        total_margin := (max_loss * contracts')%Z |}.

Section Pricing.

(** [scipy.stats.norm.cdf] on finite arguments, the standard normal
    distribution function. *)
Variable Phi : R -> R.

Definition norm_cdf (x : npfloat) : npfloat :=
  match x with
  | Fin a => Fin (Phi a)
  | PInf => Fin 1
  | NInf => Fin 0
  | NaN => NaN
  end.

(** [d1] of [calculate_black_scholes_delta], from the ratio [S / K]. *)
Definition black_scholes_d1 (ratio T r sigma : Q) : npfloat :=
  fdiv (fadd (np_log ratio) (Fin (Q2R ((r + (1 # 2) * sigma ^ 2) * T))))
       (Q2R sigma * sqrt (Q2R T)).

Definition delta_of_d1 (d1 : npfloat) (option_type : OptionType) : npfloat :=
  match option_type with
  | Call => norm_cdf d1
  | Put => fneg (norm_cdf (fneg d1))
  end.

(** [calculate_black_scholes_delta]; [S] and [K] are Python numbers, so
    [S / K] raises on a zero strike. *)
Definition calculate_black_scholes_delta (S K T r sigma : Q)
    (option_type : OptionType) : result npfloat :=
  if Qle_bool T 0
  then Ok (if Qltb K S then Fin 1 else Fin 0)
  else
    ratio <- py_truediv S K ;;
    let d1 := black_scholes_d1 ratio T r sigma in
    Ok (delta_of_d1 d1 option_type).

Definition get_strike_recommendations (self : Recommender) (spx_price : Q)
    (option_type : OptionType) : result StrikeRec :=
  sel <- select_strikes self spx_price option_type ;;
  let '(short, long, distance) := sel in
  let T := 1 # 365 in
  let r := 5 # 100 in
  let sigma := 20 # 100 in
  sd <- calculate_black_scholes_delta spx_price (inject_Z short) T r sigma
          option_type ;;
  ld <- calculate_black_scholes_delta spx_price (inject_Z long) T r sigma
          option_type ;;
  Ok {| short_strike := short;
        long_strike := long;
        short_delta := sd;
        long_delta := ld;
        distance_from_atm := distance;
        strike_width := Z.abs (short - long) |}.

Definition get_trade_recommendations (self : Recommender)
    (spx_price target_credit max_margin : Q) : result Recommendation :=
  bull_put_rec <- get_strike_recommendations self spx_price Put ;;
  bear_call_rec <- get_strike_recommendations self spx_price Call ;;
  bull_put_metrics <-
    calculate_spread_metrics (short_strike bull_put_rec)
      (long_strike bull_put_rec) target_credit max_margin ;;
  bear_call_metrics <-
    calculate_spread_metrics (short_strike bear_call_rec)
      (long_strike bear_call_rec) target_credit max_margin ;;
  Ok {| bull_put_spread :=
          {| strikes := bull_put_rec; metrics := bull_put_metrics |};
        bear_call_spread :=
          {| strikes := bear_call_rec; metrics := bear_call_metrics |};
        top_contracts_needed := contracts_needed bull_put_metrics;
        top_estimated_credit := estimated_credit bull_put_metrics;
        top_max_loss_per_spread := max_loss_per_spread bull_put_metrics |}.

End Pricing.

(** ** The trend scorer *)

(** What the two downloads of one call observe: the SPY closes for the
    requested look-back and today's VIX closes, or the exception raised. *)
Record World : Type := {
  spy_download : nat -> result (list Q);
  vix_download : result (list Q)
}.

Definition exn_message (e : exn) : string :=
  match e with
  | ZeroDivisionError => "division by zero"
  | IndexError => "single positional indexer is out-of-bounds"
  | DownloadError msg => msg
  end.

(** Functions that may [print] return the printed lines with their value. *)
Definition get_spx_historical_data (w : World) (lookback_days : nat)
    : option (list Q) * list string :=
  match spy_download w lookback_days with
  | Raise e =>
      (None, [("Error fetching historical data: " ++ exn_message e)%string])
  | Ok [] => (None, [])
  | Ok spy => (Some (map (fun c => c * 10)%Q spy), [])
  end.

Record TrendResult : Type := {
  raw_score : npfloat;
  should_trade_long : bool;
  should_trade_short : bool;
  vix_level : Q;
  interpretation : string
}.

(** The window of a pandas [rolling(window=w)] ending at position [i]. *)
Definition window_at {A : Type} (w : nat) (l : list A) (i : nat) : list A :=
  firstn (Nat.min (S i) w) (skipn (S i - w) l).

Definition Qsum (l : list Q) : Q := fold_left Qplus l 0%Q.

(** [rolling(min_periods=1, window=w).mean()] on a series without gaps:
    the mean of however many points the window holds. *)
Definition mean_at (w : nat) (l : list Q) (i : nat) : Q :=
  let win := window_at w l i in
  (Qsum win / inject_Z (Z.of_nat (length win)))%Q.

Definition rolling_mean (w : nat) (l : list Q) : list Q :=
  map (mean_at w l) (seq 0 (length l)).

(** [diff(1)]: the first entry has no predecessor. *)
Definition diff_at (s : list npfloat) (i : nat) : npfloat :=
  match i with
  | O => NaN
  | S j => fsub (nth i s NaN) (nth j s NaN)
  end.

Definition diff1 (s : list npfloat) : list npfloat :=
  map (diff_at s) (seq 0 (length s)).

Definition is_nan (x : npfloat) : bool :=
  match x with
  | NaN => true
  | _ => false
  end.

(** [rolling(window=w).sum()]: [min_periods] defaults to the window, and
    only the entries that are not nan count as observations. *)
Definition sum_at (w : nat) (s : list npfloat) (i : nat) : npfloat :=
  let obs := filter (fun x => negb (is_nan x)) (window_at w s i) in
  if (length obs <? w)%nat then NaN
  else fold_left fadd obs (Fin 0).

Definition rolling_sum (w : nat) (s : list npfloat) : list npfloat :=
  map (sum_at w s) (seq 0 (length s)).

(** [.iloc[-1]] *)
Definition iloc_last {A : Type} (s : list A) : result A :=
  match nth_error s (length s - 1) with
  | Some x => Ok x
  | None => Raise IndexError
  end.

(** [.iloc[-n:]] *)
Definition iloc_tail {A : Type} (n : nat) (s : list A) : list A :=
  skipn (length s - n) s.

Definition no_trend_data : TrendResult := {|
  raw_score := Fin 0;
  should_trade_long := false;
  should_trade_short := false;
  vix_level := 18;
  interpretation := "No trend data available"
|}.

Definition error_calculating_trend : TrendResult := {|
  raw_score := Fin 0;
  should_trade_long := false;
  should_trade_short := false;
  vix_level := 18;
  interpretation := "Error calculating trend"
|}.

Definition trend_of_history (self : Recommender) (hist_data : list Q)
    : result npfloat :=
  let hist_data :=
    if (ema_trend_window self <? length hist_data)%nat
    then iloc_tail (ema_trend_window self) hist_data
    else hist_data in
  let ema_close := rolling_mean (ema_window self) hist_data in
  let log_ema := map np_log ema_close in
  let diff_log := diff1 log_ema in
  iloc_last (rolling_sum (ema_window self) diff_log).

Definition get_vix_level (w : World) : Q :=
  match vix_download w with
  | Ok [] => 18
  | Ok vix =>
      match iloc_last vix with
      | Ok v => v
      | Raise _ => 18
      end
  | Raise _ => 18
  end.

Definition interpret (trend_score : npfloat) : string :=
  if fgtb trend_score (2 / 100) then "Strongly Bullish"
  else if fgtb trend_score 0 then "Weakly Bullish"
  else if fgtb trend_score (- 2 / 100) then "Weakly Bearish"
  else "Strongly Bearish".

(** The body of the [try] of [calculate_trend_score]. *)
Definition trend_score_body (self : Recommender) (w : World)
    : result TrendResult * list string :=
  let '(hist_data, out) := get_spx_historical_data w 300 in
  match hist_data with
  | None => (Ok no_trend_data, out)
  | Some hist_data =>
      if (length hist_data <? ema_trend_window self)%nat
      then (Ok no_trend_data, out)
      else
        (trend_score <- trend_of_history self hist_data ;;
         Ok {| raw_score := trend_score;
               should_trade_long := fgtb trend_score 0;
               should_trade_short := fltb trend_score 0;
               vix_level := get_vix_level w;
               interpretation := interpret trend_score |},
         out)
  end.

(** [calculate_trend_score]: the argument is never read. *)
Definition calculate_trend_score (self : Recommender) (w : World)
    (current_spx_price : Q) : TrendResult * list string :=
  match trend_score_body self w with
  | (Ok res, out) => (res, out)
  | (Raise e, out) =>
      (error_calculating_trend,
       out ++ [("Error calculating trend: " ++ exn_message e)%string])
  end.

(** ** Specification vocabulary *)

(** The contract count that [calculate_spread_metrics] settles on for a
    spread of width [w]. *)
Definition sized_contracts (w : Z) (target_credit max_margin : Q) : Z :=
  let max_loss := (w * 100 - w * 30)%Z in
  let contracts := Qceiling (target_credit / inject_Z (w * 30)) in
  if Qltb max_margin (inject_Z (contracts * max_loss))
  then Z.max 1 (Qfloor (max_margin / inject_Z max_loss))
  else contracts.

(** A field or function of the returned metrics that tells the caller when
    the margin actually used exceeds the cap. *)
Definition flags_margin_overage (flag : SpreadMetrics -> bool) : Prop :=
  forall (short long : Z) (tc mm : Q) (m : SpreadMetrics),
    (0 < Z.abs (short - long))%Z -> (0 < tc)%Q -> (0 < mm)%Q ->
    calculate_spread_metrics short long tc mm = Ok m ->
    (flag m = true <-> (mm < inject_Z (total_margin m))%Q).

(** Neither strike selected for one side is zero. *)
Definition strikes_nonzero (self : Recommender) (spx_price : Q)
    (option_type : OptionType) : bool :=
  match select_strikes self spx_price option_type with
  | Ok (short, long, _) => negb (short =? 0)%Z && negb (long =? 0)%Z
  | Raise _ => false
  end.

(** A distribution function to run the pricing code on: the logistic
    curve stands in for [norm.cdf] in closed examples. *)
Definition logistic (x : R) : R := (1 / (1 + exp (- x)))%R.

(** Shapes of a price series, by neighbouring entries. *)
Definition neighbours (rel : Q -> Q -> Prop) (l : list Q) : Prop :=
  forall i : nat, (S i < length l)%nat -> rel (nth i l 0%Q) (nth (S i) l 0%Q).

Definition constant_series (l : list Q) : Prop := neighbours Qeq l.
Definition increasing_series (l : list Q) : Prop := neighbours Qlt l.
Definition decreasing_series (l : list Q) : Prop :=
  neighbours (fun a b => (b < a)%Q) l.

(** The history that [calculate_trend_score] gets to see. *)
Definition history (w : World) : option (list Q) :=
  fst (get_spx_historical_data w 300).

(** States of the outside world: the download fails, or it delivers 260
    closes (flat, rising, falling) or only three, and a VIX close of 20. *)
Definition world_offline : World := {|
  spy_download := fun _ => Raise (DownloadError "timed out");
  vix_download := Raise (DownloadError "timed out")
|}.

Definition world_with (closes : list Q) : World := {|
  spy_download := fun _ => Ok closes;
  vix_download := Ok [20%Q]
|}.

Definition closes_flat : list Q := map (fun _ => 582%Q) (seq 0 260).
Definition closes_rising : list Q :=
  map (fun i => inject_Z (Z.of_nat (500 + i))) (seq 0 260).
Definition closes_falling : list Q :=
  map (fun i => inject_Z (Z.of_nat (1000 - i))) (seq 0 260).

Definition world_flat : World := world_with closes_flat.
Definition world_rising : World := world_with closes_rising.
Definition world_falling : World := world_with closes_falling.
Definition world_short : World := world_with [580%Q; 581%Q; 582%Q].

(** The same downloads as [world_flat] for the look-back the scorer asks
    for, and failures for every other look-back. *)
Definition world_flat_only_300 : World := {|
  spy_download := fun lookback_days =>
    if (lookback_days =? 300)%nat then Ok closes_flat
    else Raise (DownloadError "no data");
  vix_download := Ok [20%Q]
|}.

(** The change of the log of the rolling mean at position [i], and the sum
    of the last [w] such changes: what the trend score is on a positive
    series. *)
Definition log_return (w : nat) (h : list Q) (i : nat) : R :=
  (ln (Q2R (mean_at w h i)) - ln (Q2R (mean_at w h (i - 1))))%R.

Definition window_score (w : nat) (h : list Q) : R :=
  fold_left Rplus (map (log_return w h) (seq (length h - w) w)) 0%R.

(** The means of the last five closes and of the five before them. *)
Definition recent_mean (h : list Q) : Q :=
  (Qsum (firstn 5 (skipn (length h - 5) h)) / 5)%Q.

Definition previous_mean (h : list Q) : Q :=
  (Qsum (firstn 5 (skipn (length h - 10) h)) / 5)%Q.

(** ** The dashboard's risk management block ([app.py])

    The script reads the top-level fields of the recommendation (the keys
    are always present, so the defaults of [.get] are never used) and the
    margin cap of the sidebar. *)
Definition app_total_credit (rec : Recommendation) : Z :=
  (top_estimated_credit rec * top_contracts_needed rec)%Z.

Definition app_max_loss (rec : Recommendation) : Z :=
  (top_max_loss_per_spread rec * top_contracts_needed rec)%Z.

Definition app_margin_needed (rec : Recommendation) : Z :=
  (app_max_loss rec - app_total_credit rec)%Z.

(** [(margin_needed / max_margin) * 100 if max_margin > 0 else 0] *)
Definition app_margin_util (rec : Recommendation) (max_margin : Q) : Q :=
  if Qltb 0 max_margin
  then (inject_Z (app_margin_needed rec) / max_margin * 100)%Q
  else 0%Q.

Inductive MarginUsage : Type := HighUsage | ModerateUsage | SafeUsage.

Definition app_margin_usage (margin_util : Q) : MarginUsage :=
  if Qltb 90 margin_util then HighUsage
  else if Qltb 70 margin_util then ModerateUsage
  else SafeUsage.

(** Checklist entries "Margin requirement within limits" and "Credit
    target is achievable". *)
Definition app_margin_within_limits (margin_util : Q) : bool :=
  Qle_bool margin_util 90.

Definition app_credit_achievable (rec : Recommendation) (target_credit : Q)
    : bool :=
  Qle_bool (target_credit * (8 # 10)) (inject_Z (app_total_credit rec)).

(** * Properties *)

(** ** Rounding and comparison helpers *)

Lemma Qltb_true (a b : Q) : Qltb a b = true <-> (a < b)%Q.
Proof.
  unfold Qltb. rewrite negb_true_iff.
  destruct (Qle_bool b a) eqn:E.
  - apply Qle_bool_iff in E. split; [discriminate | intro H].
    exfalso. apply (Qlt_irrefl a). eapply Qlt_le_trans; eauto.
  - split; [intros _ | reflexivity].
    apply Qnot_le_lt. intro H. apply Qle_bool_iff in H. congruence.
Qed.

Lemma Qltb_false (a b : Q) : Qltb a b = false <-> (b <= a)%Q.
Proof.
  destruct (Qltb a b) eqn:E.
  - apply Qltb_true in E. split; [discriminate | intro H].
    exfalso. apply (Qlt_irrefl a). eapply Qlt_le_trans; eauto.
  - split; [intros _ | reflexivity].
    apply Qnot_lt_le. intro H. apply Qltb_true in H. congruence.
Qed.

Lemma Qeq_bool_inject_Z (z : Z) : z <> 0%Z -> Qeq_bool (inject_Z z) 0 = false.
Proof.
  intro Hz. destruct (Qeq_bool (inject_Z z) 0) eqn:E; [| reflexivity].
  apply Qeq_bool_iff in E. unfold Qeq in E. simpl in E. lia.
Qed.

Lemma inject_Z_pos (z : Z) : (0 < z)%Z -> (0 < inject_Z z)%Q.
Proof. intro H. change 0%Q with (inject_Z 0). now rewrite <- Zlt_Qlt. Qed.

Lemma Qdiv_pos (a b : Q) : (0 < a)%Q -> (0 < b)%Q -> (0 < a / b)%Q.
Proof.
  intros Ha Hb. apply Qlt_shift_div_l; [assumption |]. now rewrite Qmult_0_l.
Qed.

Lemma Qceiling_pos (q : Q) : (0 < q)%Q -> (1 <= Qceiling q)%Z.
Proof.
  intro Hq. pose proof (Qle_ceiling q) as Hc.
  assert (H : (inject_Z 0 < inject_Z (Qceiling q))%Q)
    by (eapply Qlt_le_trans; eauto).
  rewrite <- Zlt_Qlt in H. lia.
Qed.

Lemma Qfloor_ge_1 (q : Q) : (1 <= q)%Q -> (1 <= Qfloor q)%Z.
Proof.
  intro Hq. pose proof (Qlt_floor q) as Hf.
  assert (H : (inject_Z 1 < inject_Z (Qfloor q + 1))%Q)
    by (eapply Qle_lt_trans; eauto).
  rewrite <- Zlt_Qlt in H. lia.
Qed.

Lemma Qfloor_lt_1 (q : Q) : (0 <= q)%Q -> (q < 1)%Q -> Qfloor q = 0%Z.
Proof.
  intros H0 H1. pose proof (Qfloor_le q) as Hl. pose proof (Qlt_floor q) as Hu.
  assert (Ha : (inject_Z (Qfloor q) < inject_Z 1)%Q)
    by (eapply Qle_lt_trans; eauto).
  assert (Hb : (inject_Z 0 < inject_Z (Qfloor q + 1))%Q)
    by (eapply Qle_lt_trans; eauto).
  rewrite <- Zlt_Qlt in Ha, Hb. lia.
Qed.

(** [floor (a / b) * b <= a] for a positive integer divisor. *)
Lemma Qfloor_div_mult_le (a : Q) (b : Z) :
  (0 < b)%Z -> (inject_Z (Qfloor (a / inject_Z b) * b) <= a)%Q.
Proof.
  intro Hb. pose proof (inject_Z_pos b Hb) as Hb'.
  rewrite inject_Z_mult.
  apply Qle_trans with ((a / inject_Z b) * inject_Z b)%Q.
  - apply Qmult_le_compat_r; [apply Qfloor_le | now apply Qlt_le_weak].
  - rewrite Qmult_comm, Qmult_div_r; [apply Qle_refl |].
    intro H. rewrite H in Hb'. now apply Qlt_irrefl in Hb'.
Qed.

(** ** Spread sizing *)

Lemma calculate_spread_metrics_eq (short long : Z) (tc mm : Q) :
  Z.abs (short - long) <> 0%Z ->
  calculate_spread_metrics short long tc mm =
  let w := Z.abs (short - long) in
  let c := sized_contracts w tc mm in
  Ok {| estimated_credit := w * 30;
        max_loss_per_spread := w * 100 - w * 30;
        contracts_needed := c;
        total_credit := w * 30 * c;
        total_margin := (w * 100 - w * 30) * c |}.
Proof.
  intro Hw. unfold calculate_spread_metrics, sized_contracts, py_truediv,
    py_floordiv.
  rewrite !Qeq_bool_inject_Z by lia. cbn [bind].
  destruct (Qltb mm _); reflexivity.
Qed.

Lemma calculate_spread_metrics_zero_width (s : Z) (tc mm : Q) :
  calculate_spread_metrics s s tc mm = Raise ZeroDivisionError.
Proof.
  unfold calculate_spread_metrics. rewrite Z.sub_diag. reflexivity.
Qed.

Lemma sized_contracts_ge_1 (w : Z) (tc mm : Q) :
  (0 < w)%Z -> (0 < tc)%Q -> (1 <= sized_contracts w tc mm)%Z.
Proof.
  intros Hw Htc. unfold sized_contracts.
  destruct (Qltb mm _); [lia |].
  apply Qceiling_pos, Qdiv_pos; [assumption | apply inject_Z_pos; lia].
Qed.

Lemma sized_contracts_within_margin (w : Z) (tc mm : Q) :
  (0 < w)%Z ->
  (inject_Z (w * 100 - w * 30) <= mm)%Q ->
  (inject_Z ((w * 100 - w * 30) * sized_contracts w tc mm) <= mm)%Q.
Proof.
  intros Hw Hfit. unfold sized_contracts.
  set (ml := (w * 100 - w * 30)%Z) in *.
  assert (Hml : (0 < ml)%Z) by (unfold ml; lia).
  destruct (Qltb mm _) eqn:E.
  - assert (H1 : (1 <= Qfloor (mm / inject_Z ml))%Z).
    { apply Qfloor_ge_1. apply Qle_shift_div_l; [now apply inject_Z_pos |].
      now rewrite Qmult_1_l. }
    rewrite Z.max_r by assumption. rewrite Z.mul_comm.
    now apply Qfloor_div_mult_le.
  - apply Qltb_false in E. now rewrite Z.mul_comm.
Qed.

Lemma sized_contracts_over_margin (w : Z) (tc mm : Q) :
  (0 < w)%Z -> (0 < tc)%Q -> (0 < mm)%Q ->
  (mm < inject_Z (w * 100 - w * 30))%Q ->
  sized_contracts w tc mm = 1%Z.
Proof.
  intros Hw Htc Hmm Hover. unfold sized_contracts.
  set (ml := (w * 100 - w * 30)%Z) in *.
  assert (Hml : (0 < ml)%Z) by (unfold ml; lia).
  pose proof (inject_Z_pos ml Hml) as Hml'.
  assert (Hc : (1 <= Qceiling (tc / inject_Z (w * 30)))%Z).
  { apply Qceiling_pos, Qdiv_pos; [assumption | apply inject_Z_pos; lia]. }
  assert (E : Qltb mm (inject_Z (Qceiling (tc / inject_Z (w * 30)) * ml))
              = true).
  { apply Qltb_true. eapply Qlt_le_trans; [exact Hover |].
    rewrite <- Zle_Qle. nia. }
  rewrite E.
  rewrite Qfloor_lt_1; [reflexivity | |].
  - apply Qlt_le_weak, Qdiv_pos; assumption.
  - apply Qlt_shift_div_r; [assumption | now rewrite Qmult_1_l].
Qed.

(** C3: for a spread of positive width [w], a positive target credit and a
    positive margin cap, [calculate_spread_metrics] returns credit [w * 30],
    maximum loss [w * 100 - credit], the contract count
    [ceil (target / credit)] (at least 1), replaced by
    [max 1 (floor (margin / loss))] exactly when count times loss exceeds
    the cap; for target 2500, width 5 and cap 5000 this is 150, 350, an
    initial count of 17 and a final count of 14. *)
Theorem spread_metrics_formula :
  (forall (short long : Z) (tc mm : Q),
      (0 < Z.abs (short - long))%Z -> (0 < tc)%Q -> (0 < mm)%Q ->
      let w := Z.abs (short - long) in
      let credit := (w * 30)%Z in
      let max_loss := (w * 100 - credit)%Z in
      let count := Z.max 1 (Qceiling (tc / inject_Z credit)) in
      exists m,
        calculate_spread_metrics short long tc mm = Ok m /\
        estimated_credit m = credit /\
        max_loss_per_spread m = max_loss /\
        count = Qceiling (tc / inject_Z credit) /\
        ((mm < inject_Z (count * max_loss))%Q ->
         contracts_needed m = Z.max 1 (Qfloor (mm / inject_Z max_loss))) /\
        ((inject_Z (count * max_loss) <= mm)%Q ->
         contracts_needed m = count) /\
        total_credit m = (contracts_needed m * credit)%Z /\
        total_margin m = (contracts_needed m * max_loss)%Z) /\
  (forall short long : Z,
      Z.abs (short - long) = 5%Z ->
      Qceiling (2500 / inject_Z (5 * 30)) = 17%Z /\
      (5000 < inject_Z (17 * (5 * 100 - 5 * 30)))%Q /\
      Qfloor (5000 / inject_Z (5 * 100 - 5 * 30)) = 14%Z /\
      calculate_spread_metrics short long 2500 5000 =
      Ok {| estimated_credit := 150;
            max_loss_per_spread := 350;
            contracts_needed := 14;
            total_credit := 2100;
            total_margin := 4900 |}).
Proof.
  split.
  - intros short long tc mm Hw Htc Hmm w credit max_loss count.
    assert (Hc : (1 <= Qceiling (tc / inject_Z credit))%Z).
    { apply Qceiling_pos, Qdiv_pos; [assumption |].
      apply inject_Z_pos. unfold credit, w. lia. }
    assert (Hcount : count = Qceiling (tc / inject_Z credit))
      by (unfold count; lia).
    rewrite calculate_spread_metrics_eq by lia.
    fold w. cbv zeta. eexists. split; [reflexivity |]. cbn.
    fold credit. fold max_loss. unfold sized_contracts.
    fold credit. fold max_loss. rewrite <- Hcount.
    repeat split; try lia.
    + intro H. apply Qltb_true in H. now rewrite H.
    + intro H. apply Qltb_false in H. now rewrite H.
  - intros short long Hw.
    repeat split; try reflexivity.
    rewrite calculate_spread_metrics_eq by lia.
    rewrite Hw. reflexivity.
Qed.

Lemma spread_metrics_formula_witness :
  exists m,
    calculate_spread_metrics 5810 5805 2500 5000 = Ok m /\
    contracts_needed m = 14%Z /\ total_margin m = 4900%Z.
Proof.
  destruct (proj1 spread_metrics_formula 5810%Z 5805%Z 2500 5000)
    as [m [Hm [_ [_ [_ [Hresize [_ [_ Htm]]]]]]]];
    [reflexivity | reflexivity | reflexivity |].
  exists m. split; [exact Hm |].
  assert (Hc : contracts_needed m = 14%Z) by (apply Hresize; reflexivity).
  split; [exact Hc |]. rewrite Htm, Hc. reflexivity.
Defined.

(** C4 (as it holds on the code): for positive width, target credit and
    margin cap the sized position has at least one contract and
    [total_margin = contracts_needed * max_loss_per_spread]; the margin stays
    within the cap whenever one contract fits, and otherwise the count is 1
    and the margin (one contract's loss) exceeds the cap.  The returned
    metrics hold the five numbers only. *)
Theorem spread_metrics_margin_bound (short long : Z) (tc mm : Q) :
  (0 < Z.abs (short - long))%Z -> (0 < tc)%Q -> (0 < mm)%Q ->
  exists m,
    calculate_spread_metrics short long tc mm = Ok m /\
    (1 <= contracts_needed m)%Z /\
    total_margin m = (contracts_needed m * max_loss_per_spread m)%Z /\
    ((inject_Z (max_loss_per_spread m) <= mm)%Q ->
     (inject_Z (total_margin m) <= mm)%Q) /\
    ((mm < inject_Z (max_loss_per_spread m))%Q ->
     contracts_needed m = 1%Z /\
     total_margin m = max_loss_per_spread m /\
     (mm < inject_Z (total_margin m))%Q).
Proof.
  intros Hw Htc Hmm.
  rewrite calculate_spread_metrics_eq by lia. cbv zeta.
  eexists. split; [reflexivity |]. cbn.
  split; [now apply sized_contracts_ge_1 |].
  split; [lia |].
  split.
  - intro Hfit. now apply sized_contracts_within_margin.
  - intro Hover.
    rewrite (sized_contracts_over_margin _ tc mm Hw Htc Hmm Hover).
    rewrite Z.mul_1_r. auto.
Qed.

Lemma spread_metrics_margin_bound_witness :
  exists m,
    calculate_spread_metrics 5810 5805 100 300 = Ok m /\
    contracts_needed m = 1%Z /\ (300 < inject_Z (total_margin m))%Q.
Proof.
  destruct (spread_metrics_margin_bound 5810 5805 100 300)
    as [m [Hm [_ [_ [_ Hover]]]]];
    [reflexivity | reflexivity | reflexivity |].
  exists m. split; [exact Hm |].
  assert (Hlt : (300 < inject_Z (max_loss_per_spread m))%Q).
  { cbv in Hm. injection Hm as <-. reflexivity. }
  destruct (Hover Hlt) as [Hc [_ Ht]]. auto.
Defined.

(** C4, the flag: two calls that differ only in the margin cap, one within
    it and one over it, return the same metrics, so nothing in the result
    tells the caller about the overage. *)
Lemma spread_metrics_overage_not_flagged :
  ~ exists flag : SpreadMetrics -> bool, flags_margin_overage flag.
Proof.
  intros [flag Hflag].
  pose (m := {| estimated_credit := 150;
                max_loss_per_spread := 350;
                contracts_needed := 1;
                total_credit := 150;
                total_margin := 350 |}).
  assert (Hover : flag m = true <-> (300 < inject_Z (total_margin m))%Q).
  { apply (Hflag 5810%Z 5805%Z 100 300 m); reflexivity. }
  assert (Hfit : flag m = true <-> (5000 < inject_Z (total_margin m))%Q).
  { apply (Hflag 5810%Z 5805%Z 100 5000 m); reflexivity. }
  assert (H1 : flag m = true) by (apply Hover; reflexivity).
  apply Hfit in H1. cbv in H1. discriminate.
Qed.

(** ** Strike selection *)

Lemma Qfloor_ge (k : Z) (q : Q) : (inject_Z k <= q)%Q -> (k <= Qfloor q)%Z.
Proof.
  intro H. rewrite <- (Qfloor_Z k). now apply Qfloor_resp_le.
Qed.

Lemma Qceiling_le (k : Z) (q : Q) : (q <= inject_Z k)%Q -> (Qceiling q <= k)%Z.
Proof.
  intro H. rewrite <- (Qceiling_Z k). now apply Qceiling_resp_le.
Qed.

(** The target strike of the put side, [price - price * 0.0015]. *)
Lemma put_target_eq (p : Q) :
  (p - p * (15 # 10000) == p * (1 - (15 # 10000)))%Q.
Proof. ring. Qed.

Lemma select_strikes_put (p : Q) :
  select_strikes init p Put =
  let short := (Qfloor ((p - p * (15 # 10000)) / 5) * 5)%Z in
  Ok (short, (short - 5)%Z, (p - inject_Z short)%Q).
Proof. reflexivity. Qed.

Lemma select_strikes_call (p : Q) :
  select_strikes init p Call =
  let short := (Qceiling ((p + p * (15 # 10000)) / 5) * 5)%Z in
  Ok (short, (short + 5)%Z, (inject_Z short - p)%Q).
Proof. reflexivity. Qed.


(** ** Deltas and the pipeline *)

Section PipelineFacts.

Variable Phi : R -> R.

(** With the fixed one-day expiry the delta call fails exactly on a zero
    strike. *)
Lemma pipeline_delta (p : Q) (K : Z) (ot : OptionType) :
  calculate_black_scholes_delta Phi p (inject_Z K) (1 # 365) (5 # 100)
    (20 # 100) ot =
  if (K =? 0)%Z then Raise ZeroDivisionError
  else Ok (delta_of_d1 Phi
             (black_scholes_d1 (p / inject_Z K) (1 # 365) (5 # 100) (20 # 100))
             ot).
Proof.
  unfold calculate_black_scholes_delta, py_truediv.
  change (Qle_bool (1 # 365) 0) with false. cbv iota.
  destruct (Z.eqb_spec K 0) as [-> | Hk]; [reflexivity |].
  now rewrite Qeq_bool_inject_Z.
Qed.

Lemma get_strike_recommendations_returns (p : Q) (ot : OptionType) :
  returns (get_strike_recommendations Phi init p ot) =
  strikes_nonzero init p ot.
Proof.
  unfold get_strike_recommendations, strikes_nonzero.
  destruct (select_strikes init p ot) as [[[s l] d] | e]; [| reflexivity].
  cbn [bind]. rewrite !pipeline_delta.
  destruct (s =? 0)%Z; [reflexivity |].
  destruct (l =? 0)%Z; reflexivity.
Qed.

(** Whatever [get_strike_recommendations] returns carries the selected
    strikes, and their width is the strike gap. *)
Lemma get_strike_recommendations_fields (p : Q) (ot : OptionType)
    (rec : StrikeRec) :
  get_strike_recommendations Phi init p ot = Ok rec ->
  select_strikes init p ot =
    Ok (short_strike rec, long_strike rec, distance_from_atm rec) /\
  strike_width rec = Z.abs (short_strike rec - long_strike rec) /\
  Z.abs (short_strike rec - long_strike rec) = 5%Z.
Proof.
  unfold get_strike_recommendations.
  destruct (select_strikes init p ot) as [[[s l] d] | e] eqn:Hsel;
    [| discriminate].
  cbn [bind]. rewrite !pipeline_delta.
  destruct (s =? 0)%Z; [discriminate |].
  destruct (l =? 0)%Z; [discriminate |].
  cbn [bind]. intro H. injection H as <-. cbn.
  repeat split.
  destruct ot.
  - rewrite select_strikes_put in Hsel. cbv zeta in Hsel.
    injection Hsel as <- <- _. lia.
  - rewrite select_strikes_call in Hsel. cbv zeta in Hsel.
    injection Hsel as <- <- _. lia.
Qed.

Lemma get_trade_recommendations_returns (p tc mm : Q) :
  returns (get_trade_recommendations Phi init p tc mm) =
  strikes_nonzero init p Put && strikes_nonzero init p Call.
Proof.
  rewrite <- !get_strike_recommendations_returns.
  unfold get_trade_recommendations.
  destruct (get_strike_recommendations Phi init p Put) as [bp | e] eqn:Hbp;
    [| reflexivity].
  destruct (get_strike_recommendations Phi init p Call) as [bc | e] eqn:Hbc;
    [| reflexivity].
  apply get_strike_recommendations_fields in Hbp, Hbc.
  destruct Hbp as [_ [_ Hbp]]. destruct Hbc as [_ [_ Hbc]].
  cbn [bind]. rewrite !calculate_spread_metrics_eq by lia.
  reflexivity.
Qed.

(** For a positive price the call strikes are positive; the pipeline
    returns exactly when the put target reaches the second grid line. *)
Lemma get_trade_recommendations_returns_pos (p tc mm : Q) :
  (0 < p)%Q ->
  returns (get_trade_recommendations Phi init p tc mm) = true <->
  (10 <= p * (1 - (15 # 10000)))%Q.
Proof.
  intro Hp. rewrite get_trade_recommendations_returns.
  unfold strikes_nonzero. rewrite select_strikes_put, select_strikes_call.
  cbv zeta.
  set (t := (p - p * (15 # 10000))%Q).
  set (u := (p + p * (15 # 10000))%Q).
  assert (Hu : (1 <= Qceiling (u / 5))%Z).
  { apply Qceiling_pos, Qdiv_pos; [unfold u; lra | reflexivity]. }
  assert (Ht : (0 <= Qfloor (t / 5))%Z).
  { apply Qfloor_ge. apply Qlt_le_weak, Qdiv_pos; [unfold t; lra |
    reflexivity]. }
  rewrite <- put_target_eq. fold t.
  rewrite andb_true_iff, !andb_true_iff, !negb_true_iff, !Z.eqb_neq.
  split.
  - intros [[H1 H2] _].
    assert (H : (2 <= Qfloor (t / 5))%Z) by lia.
    apply Qle_trans with (inject_Z (Qfloor (t / 5) * 5)).
    + change 10%Q with (inject_Z 10). rewrite <- Zle_Qle. lia.
    + apply (Qfloor_div_mult_le t 5). lia.
  - intro H.
    assert (H2 : (2 <= Qfloor (t / 5))%Z).
    { apply Qfloor_ge. apply Qle_shift_div_l; [reflexivity |]. exact H. }
    repeat split; lia.
Qed.

End PipelineFacts.

Lemma returns_true {A : Type} (m : result A) :
  returns m = true -> exists a, m = Ok a.
Proof. destruct m as [a | e]; [now exists a | discriminate]. Qed.

Lemma get_strike_recommendations_exn (Phi : R -> R) (p : Q) (ot : OptionType)
    (e : exn) :
  get_strike_recommendations Phi init p ot = Raise e -> e = ZeroDivisionError.
Proof.
  unfold get_strike_recommendations.
  destruct ot.
  - rewrite select_strikes_put. cbv zeta. cbn [bind]. rewrite !pipeline_delta.
    destruct (_ =? 0)%Z; [intro H; now injection H |].
    destruct (_ =? 0)%Z; [intro H; now injection H | discriminate].
  - rewrite select_strikes_call. cbv zeta. cbn [bind]. rewrite !pipeline_delta.
    destruct (_ =? 0)%Z; [intro H; now injection H |].
    destruct (_ =? 0)%Z; [intro H; now injection H | discriminate].
Qed.

Lemma get_trade_recommendations_exn (Phi : R -> R) (p tc mm : Q) (e : exn) :
  get_trade_recommendations Phi init p tc mm = Raise e ->
  e = ZeroDivisionError.
Proof.
  unfold get_trade_recommendations.
  destruct (get_strike_recommendations Phi init p Put) as [bp | e1] eqn:Hbp.
  2:{ cbn [bind]. intro H. injection H as <-.
      eapply get_strike_recommendations_exn; eauto. }
  destruct (get_strike_recommendations Phi init p Call) as [bc | e1] eqn:Hbc.
  2:{ cbn [bind]. intro H. injection H as <-.
      eapply get_strike_recommendations_exn; eauto. }
  apply get_strike_recommendations_fields in Hbp, Hbc.
  destruct Hbp as [_ [_ Hbp]]. destruct Hbc as [_ [_ Hbc]].
  cbn [bind]. rewrite !calculate_spread_metrics_eq by lia.
  discriminate.
Qed.

(** C1, at a positive price below the first strikes of the grid: the short
    put strike is 0 and the delta computation divides by it. *)
Theorem pipeline_raises_below_grid (Phi : R -> R) :
  select_strikes init 3 Put = Ok (0%Z, (-5)%Z, 3%Q) /\
  calculate_black_scholes_delta Phi 3 (inject_Z 0) (1 # 365) (5 # 100)
    (20 # 100) Put = Raise ZeroDivisionError /\
  get_trade_recommendations Phi init 3 2500 5000 = Raise ZeroDivisionError.
Proof. repeat split. Qed.

(** C5, at the same price: the put strikes 0 and -5 are selected on the
    grid below the target, but [get_strike_recommendations] raises on the
    zero strike instead of returning them. *)
Theorem put_recommendation_raises_below_grid (Phi : R -> R) :
  select_strikes init 3 Put = Ok (0%Z, (-5)%Z, 3%Q) /\
  get_strike_recommendations Phi init 3 Put = Raise ZeroDivisionError.
Proof. split; reflexivity. Qed.

(** The scenario of C5: at 5820 the put side returns strikes 5810 and 5805,
    10 points from the money. *)
Lemma put_recommendation_5820 (Phi : R -> R) :
  exists rec,
    get_strike_recommendations Phi init 5820 Put = Ok rec /\
    short_strike rec = 5810%Z /\ long_strike rec = 5805%Z /\
    distance_from_atm rec = 10%Q /\ strike_width rec = 5%Z.
Proof.
  unfold get_strike_recommendations. rewrite select_strikes_put.
  cbv zeta. cbn [bind]. rewrite !pipeline_delta.
  eexists. split; [reflexivity |]. cbn. repeat split; reflexivity.
Qed.


(** C9 (as it holds on the code): no entry point checks its inputs.
    Whether [get_trade_recommendations] returns does not depend on the
    target credit or the margin cap, it returns for every price at or below
    -10 whatever their signs, the only exception it raises is the
    [ZeroDivisionError] of a zero strike, and [calculate_spread_metrics]
    returns for any target and cap as soon as the strikes differ. *)
Theorem no_input_validation :
  (forall (Phi : R -> R) (p tc mm tc' mm' : Q),
      returns (get_trade_recommendations Phi init p tc mm) =
      returns (get_trade_recommendations Phi init p tc' mm')) /\
  (forall (Phi : R -> R) (p tc mm : Q),
      (p <= -10)%Q ->
      returns (get_trade_recommendations Phi init p tc mm) = true) /\
  (forall (Phi : R -> R) (p tc mm : Q) (e : exn),
      get_trade_recommendations Phi init p tc mm = Raise e ->
      e = ZeroDivisionError /\
      strikes_nonzero init p Put && strikes_nonzero init p Call = false) /\
  (forall (short long : Z) (tc mm : Q),
      short <> long ->
      returns (calculate_spread_metrics short long tc mm) = true).
Proof.
  split; [| split; [| split]].
  - intros. now rewrite !get_trade_recommendations_returns.
  - intros Phi p tc mm Hp. rewrite get_trade_recommendations_returns.
    unfold strikes_nonzero. rewrite select_strikes_put, select_strikes_call.
    cbv zeta.
    set (t := (p - p * (15 # 10000))%Q).
    set (u := (p + p * (15 # 10000))%Q).
    assert (Ht : (Qfloor (t / 5) <= -2)%Z).
    { pose proof (Qfloor_le (t / 5)) as Hf.
      assert (H : (t / 5 < inject_Z (-1))%Q).
      { apply Qlt_shift_div_r; [reflexivity |]. unfold t.
        change (inject_Z (-1) * 5)%Q with (-5)%Q. lra. }
      assert (H' : (inject_Z (Qfloor (t / 5)) < inject_Z (-1))%Q)
        by (eapply Qle_lt_trans; eauto).
      rewrite <- Zlt_Qlt in H'. lia. }
    assert (Hu : (Qceiling (u / 5) <= -2)%Z).
    { apply Qceiling_le. apply Qle_shift_div_r; [reflexivity |]. unfold u.
      change (inject_Z (-2) * 5)%Q with (-10)%Q. lra. }
    rewrite !andb_true_iff, !negb_true_iff, !Z.eqb_neq.
    repeat split; lia.
  - intros Phi p tc mm e He. split.
    + eapply get_trade_recommendations_exn; eauto.
    + rewrite <- (get_trade_recommendations_returns Phi p tc mm), He.
      reflexivity.
  - intros short long tc mm Hne.
    rewrite calculate_spread_metrics_eq by lia. reflexivity.
Qed.

Lemma no_input_validation_witness :
  returns (get_trade_recommendations logistic init (-100) (-2500) (-5000))
  = true /\
  returns (calculate_spread_metrics 5810 5805 (-2500) (-5000)) = true.
Proof.
  split.
  - apply (proj1 (proj2 no_input_validation) logistic (-100)%Q).
    vm_compute. discriminate.
  - apply (proj2 (proj2 (proj2 no_input_validation))). lia.
Defined.

(** C9, refuted: a negative price, a negative target credit, a zero target
    credit and a negative margin cap are each accepted, and a
    recommendation is computed. *)
Lemma nonpositive_inputs_accepted :
  returns (get_trade_recommendations logistic init (-100) 2500 5000) = true /\
  returns (get_trade_recommendations logistic init 5820 (-2500) 5000) = true /\
  returns (get_trade_recommendations logistic init 5820 0 5000) = true /\
  returns (get_trade_recommendations logistic init 5820 2500 (-5000)) = true /\
  (exists m,
      calculate_spread_metrics 5810 5805 (-2500) (-5000) = Ok m /\
      contracts_needed m = (-16)%Z).
Proof.
  rewrite !get_trade_recommendations_returns.
  repeat split. eexists. split; vm_compute; reflexivity.
Qed.

Lemma calculate_spread_metrics_width (s1 l1 s2 l2 : Z) (tc mm : Q) :
  Z.abs (s1 - l1) = Z.abs (s2 - l2) ->
  calculate_spread_metrics s1 l1 tc mm = calculate_spread_metrics s2 l2 tc mm.
Proof. unfold calculate_spread_metrics. now intros ->. Qed.

(** C10: for positive price, target credit and margin cap,
    [calculate_spread_metrics] depends on the strikes through their width
    only, the width is the strike gap on the put and on the call side, so
    both sides get the same metrics; in every recommendation returned the
    two spreads carry identical metrics and the top-level
    [contracts_needed], [estimated_credit] and [max_loss_per_spread] repeat
    the bull put values.  No trend input exists to change this. *)
Theorem both_sides_same_metrics (Phi : R -> R) (p tc mm : Q) :
  (0 < p)%Q -> (0 < tc)%Q -> (0 < mm)%Q ->
  (forall s1 l1 s2 l2 : Z,
      Z.abs (s1 - l1) = Z.abs (s2 - l2) ->
      calculate_spread_metrics s1 l1 tc mm =
      calculate_spread_metrics s2 l2 tc mm) /\
  (exists sp lp dp sc lc dc m,
      select_strikes init p Put = Ok (sp, lp, dp) /\
      select_strikes init p Call = Ok (sc, lc, dc) /\
      Z.abs (sp - lp) = strike_gap init /\
      Z.abs (sc - lc) = strike_gap init /\
      calculate_spread_metrics sp lp tc mm = Ok m /\
      calculate_spread_metrics sc lc tc mm = Ok m) /\
  (forall rec : Recommendation,
      get_trade_recommendations Phi init p tc mm = Ok rec ->
      metrics (bull_put_spread rec) = metrics (bear_call_spread rec) /\
      top_contracts_needed rec =
        contracts_needed (metrics (bull_put_spread rec)) /\
      top_estimated_credit rec =
        estimated_credit (metrics (bull_put_spread rec)) /\
      top_max_loss_per_spread rec =
        max_loss_per_spread (metrics (bull_put_spread rec))).
Proof.
  intros _ _ _. split; [| split].
  - intros. now apply calculate_spread_metrics_width.
  - rewrite select_strikes_put, select_strikes_call. cbv zeta.
    do 6 eexists.
    assert (Hp : forall s : Z, Z.abs (s - (s - 5)) = 5%Z) by (intro; lia).
    assert (Hc : forall s : Z, Z.abs (s - (s + 5)) = 5%Z) by (intro; lia).
    eexists. split; [reflexivity |]. split; [reflexivity |].
    split; [apply Hp |]. split; [apply Hc |].
    rewrite !calculate_spread_metrics_eq by (rewrite ?Hp, ?Hc; lia).
    rewrite Hp, Hc. split; reflexivity.
  - intros rec. unfold get_trade_recommendations.
    destruct (get_strike_recommendations Phi init p Put) as [bp | e] eqn:Hbp;
      [| discriminate].
    destruct (get_strike_recommendations Phi init p Call) as [bc | e] eqn:Hbc;
      [| discriminate].
    apply get_strike_recommendations_fields in Hbp, Hbc.
    destruct Hbp as [_ [_ Hbp]]. destruct Hbc as [_ [_ Hbc]].
    cbn [bind]. rewrite !calculate_spread_metrics_eq by lia.
    cbv zeta. cbn [bind]. rewrite Hbp, Hbc.
    intro H. injection H as <-. cbn. auto.
Qed.

Lemma both_sides_same_metrics_witness :
  exists rec,
    get_trade_recommendations logistic init 5820 2500 5000 = Ok rec /\
    metrics (bull_put_spread rec) = metrics (bear_call_spread rec) /\
    top_contracts_needed rec = 14%Z.
Proof.
  assert (Hret : returns (get_trade_recommendations logistic init 5820 2500
                            5000) = true)
    by (rewrite get_trade_recommendations_returns; reflexivity).
  destruct (returns_true _ Hret) as [rec Hrec].
  exists rec. split; [exact Hrec |].
  destruct (both_sides_same_metrics logistic 5820 2500 5000)
    as [_ [_ Hrec']]; [reflexivity | reflexivity | reflexivity |].
  destruct (Hrec' rec Hrec) as [Hm [Hc _]].
  split; [exact Hm |]. rewrite Hc.
  revert Hrec. unfold get_trade_recommendations, get_strike_recommendations.
  rewrite select_strikes_put, select_strikes_call. cbv zeta. cbn [bind].
  rewrite !pipeline_delta.
  intro H. injection H as <-. reflexivity.
Defined.

(** ** The Black-Scholes delta *)

Lemma logistic_range (x : R) : (0 <= logistic x <= 1)%R.
Proof.
  unfold logistic. pose proof (exp_pos (- x)) as He.
  assert (Hd : (0 < 1 + exp (- x))%R) by lra.
  split.
  - apply Rlt_le, Rdiv_lt_0_compat; lra.
  - apply (Rmult_le_reg_r (1 + exp (- x))); [assumption |].
    unfold Rdiv. rewrite Rmult_assoc, Rinv_l by lra. lra.
Qed.

Lemma Q2R_pos (q : Q) : (0 < q)%Q -> (0 < Q2R q)%R.
Proof. intro H. apply Qlt_Rlt in H. now rewrite RMicromega.Q2R_0 in H. Qed.

Lemma Qeq_bool_pos (q : Q) : (0 < q)%Q -> Qeq_bool q 0 = false.
Proof.
  intro H. destruct (Qeq_bool q 0) eqn:E; [| reflexivity].
  apply Qeq_bool_iff in E. rewrite E in H. now apply Qlt_irrefl in H.
Qed.

Lemma Qle_bool_pos (q : Q) : (0 < q)%Q -> Qle_bool q 0 = false.
Proof.
  intro H. destruct (Qle_bool q 0) eqn:E; [| reflexivity].
  apply Qle_bool_iff in E. exfalso. apply (Qlt_irrefl 0).
  eapply Qlt_le_trans; eauto.
Qed.

(** [d1] is a finite real when the ratio and the volatility are positive. *)
Lemma black_scholes_d1_finite (ratio T r sigma : Q) :
  (0 < ratio)%Q -> (0 < T)%Q -> (0 < sigma)%Q ->
  black_scholes_d1 ratio T r sigma =
  Fin ((ln (Q2R ratio) + Q2R ((r + (1 # 2) * sigma ^ 2) * T))
       / (Q2R sigma * sqrt (Q2R T))).
Proof.
  intros Hr HT Hs. unfold black_scholes_d1, np_log.
  rewrite (proj2 (Qltb_true 0 ratio) Hr). cbn [fadd fdiv].
  destruct (Req_EM_T (Q2R sigma * sqrt (Q2R T)) 0) as [E | _];
    [| reflexivity].
  exfalso.
  pose proof (Q2R_pos _ Hs) as Hs'.
  pose proof (sqrt_lt_R0 _ (Q2R_pos _ HT)) as HT'.
  pose proof (Rmult_lt_0_compat _ _ Hs' HT'). lra.
Qed.

Section DeltaRange.

Variable Phi : R -> R.
Hypothesis Phi_range : forall x : R, (0 <= Phi x <= 1)%R.

(** C2 (as it holds on the code): for a positive spot, a positive strike and
    a positive volatility, with time to expiry above zero the call delta is
    [Phi d1] in [0, 1] and the put delta is [- Phi (- d1)] in [-1, 0], where
    [d1 = (ln (S / K) + (r + sigma^2 / 2) T) / (sigma sqrt T)]; with time to
    expiry at or below zero the result, for any strike and either option
    type, is 1 if the spot is above the strike and 0 otherwise, and nothing
    is divided. *)
Theorem black_scholes_delta_range (S K T r sigma : Q) :
  (0 < S)%Q -> (0 < K)%Q -> (0 < sigma)%Q ->
  ((0 < T)%Q ->
   exists d1 : R,
     d1 = ((ln (Q2R S / Q2R K)
            + (Q2R r + 1 / 2 * (Q2R sigma * Q2R sigma)) * Q2R T)
           / (Q2R sigma * sqrt (Q2R T)))%R /\
     calculate_black_scholes_delta Phi S K T r sigma Call = Ok (Fin (Phi d1)) /\
     (0 <= Phi d1 <= 1)%R /\
     calculate_black_scholes_delta Phi S K T r sigma Put
       = Ok (Fin (- Phi (- d1))) /\
     (-1 <= - Phi (- d1) <= 0)%R) /\
  ((T <= 0)%Q ->
   forall (K' : Q) (ot : OptionType),
     calculate_black_scholes_delta Phi S K' T r sigma ot =
     Ok (if Qltb K' S then Fin 1 else Fin 0)).
Proof.
  intros HS HK Hs. split.
  - intro HT.
    assert (Hratio : (0 < S / K)%Q) by now apply Qdiv_pos.
    eexists. split; [reflexivity |].
    unfold calculate_black_scholes_delta, py_truediv.
    rewrite (Qle_bool_pos _ HT), (Qeq_bool_pos _ HK). cbn [bind].
    rewrite (black_scholes_d1_finite _ _ _ _ Hratio HT Hs).
    assert (E : ((ln (Q2R (S / K)) + Q2R ((r + (1 # 2) * sigma ^ 2) * T))
                 / (Q2R sigma * sqrt (Q2R T)))%R =
                ((ln (Q2R S / Q2R K)
                  + (Q2R r + 1 / 2 * (Q2R sigma * Q2R sigma)) * Q2R T)
                 / (Q2R sigma * sqrt (Q2R T)))%R).
    { assert (HK0 : ~ (K == 0)%Q).
      { intro E. rewrite E in HK. now apply Qlt_irrefl in HK. }
      rewrite (Q2R_div S K HK0).
      assert (Hsq : ((r + (1 # 2) * sigma ^ 2) * T ==
                     (r + (1 # 2) * (sigma * sigma)) * T)%Q)
        by (simpl; ring).
      rewrite (Qeq_eqR _ _ Hsq).
      rewrite !Q2R_mult, Q2R_plus, !Q2R_mult.
      replace (Q2R (1 # 2)) with (1 / 2)%R; [reflexivity |].
      unfold Q2R. simpl. lra. }
    rewrite E. cbn [delta_of_d1 norm_cdf fneg].
    repeat split; try apply Phi_range.
    + pose proof (Phi_range
        (- ((ln (Q2R S / Q2R K)
             + (Q2R r + 1 / 2 * (Q2R sigma * Q2R sigma)) * Q2R T)
            / (Q2R sigma * sqrt (Q2R T))))%R). lra.
    + pose proof (Phi_range
        (- ((ln (Q2R S / Q2R K)
             + (Q2R r + 1 / 2 * (Q2R sigma * Q2R sigma)) * Q2R T)
            / (Q2R sigma * sqrt (Q2R T))))%R). lra.
  - intros HT K' ot. unfold calculate_black_scholes_delta.
    now rewrite (proj2 (Qle_bool_iff T 0) HT).
Qed.

End DeltaRange.

Lemma black_scholes_delta_range_witness :
  (exists d1 : R,
      calculate_black_scholes_delta logistic 5820 5810 (1 # 365) (5 # 100)
        (20 # 100) Put = Ok (Fin (- logistic (- d1))) /\
      (-1 <= - logistic (- d1) <= 0)%R) /\
  calculate_black_scholes_delta logistic 5820 5810 0 (5 # 100) (20 # 100) Put
  = Ok (Fin 1).
Proof.
  split.
  - destruct (black_scholes_delta_range logistic logistic_range 5820 5810
                (1 # 365) (5 # 100) (20 # 100)) as [H _];
      [reflexivity | reflexivity | reflexivity |].
    destruct H as [d1 [_ [_ [_ [Hp Hr]]]]]; [reflexivity |].
    exists d1. split; assumption.
  - destruct (black_scholes_delta_range logistic logistic_range 5820 5810
                0 (5 # 100) (20 # 100)) as [_ H];
      [reflexivity | reflexivity | reflexivity |].
    apply (H ltac:(discriminate) 5810%Q Put).
Defined.

(** C2, refuted on strikes that are not positive: a zero strike raises, a
    negative strike yields nan, which lies in no interval. *)
Lemma black_scholes_delta_bad_strike :
  calculate_black_scholes_delta logistic 5820 0 (1 # 365) (5 # 100)
    (20 # 100) Call = Raise ZeroDivisionError /\
  calculate_black_scholes_delta logistic 5820 (-5) (1 # 365) (5 # 100)
    (20 # 100) Call = Ok NaN.
Proof. split; reflexivity. Qed.

(** ** Rolling windows *)

Lemma firstn_seq_le (a s n : nat) :
  (a <= n)%nat -> firstn a (seq s n) = seq s a.
Proof.
  revert s n. induction a as [| a IH]; intros s n Hle; [reflexivity |].
  destruct n as [| n]; [lia |].
  cbn. f_equal. apply IH. lia.
Qed.

Lemma window_map_seq {A : Type} (f : nat -> A) (w n i : nat) :
  (i < n)%nat -> (w <= S i)%nat ->
  window_at w (map f (seq 0 n)) i = map f (seq (S i - w) w).
Proof.
  intros Hi Hw. unfold window_at.
  rewrite Nat.min_r by assumption.
  rewrite skipn_map, skipn_seq, firstn_map, firstn_seq_le by lia.
  reflexivity.
Qed.

Lemma nth_error_map_seq {A : Type} (f : nat -> A) (n i : nat) :
  (i < n)%nat -> nth_error (map f (seq 0 n)) i = Some (f i).
Proof.
  intro Hi. apply map_nth_error.
  rewrite nth_error_seq.
  destruct (Nat.ltb_spec i n); [reflexivity | lia].
Qed.

Lemma nth_map_seq {A : Type} (f : nat -> A) (n i : nat) (d : A) :
  (i < n)%nat -> nth i (map f (seq 0 n)) d = f i.
Proof.
  intro Hi. apply nth_error_nth. now apply nth_error_map_seq.
Qed.

Lemma length_map_seq {A : Type} (f : nat -> A) (n : nat) :
  length (map f (seq 0 n)) = n.
Proof. now rewrite length_map, length_seq. Qed.

Lemma iloc_last_map_seq {A : Type} (f : nat -> A) (n : nat) :
  (0 < n)%nat -> iloc_last (map f (seq 0 n)) = Ok (f (n - 1)%nat).
Proof.
  intro Hn. unfold iloc_last.
  rewrite length_map_seq, nth_error_map_seq by lia. reflexivity.
Qed.

Lemma skipn_nth_cons {A : Type} (l : list A) (k : nat) (d : A) :
  (k < length l)%nat -> skipn k l = nth k l d :: skipn (S k) l.
Proof.
  revert k. induction l as [| x l IH]; intros k Hk; [cbn in Hk; lia |].
  destruct k as [| k]; [reflexivity |].
  cbn in Hk. cbn [skipn nth]. apply IH. lia.
Qed.

Lemma window_full {A : Type} (l : list A) (w i : nat) :
  (w <= S i)%nat -> window_at w l i = firstn w (skipn (S i - w) l).
Proof. intro Hw. unfold window_at. now rewrite Nat.min_r. Qed.

Lemma length_window_full {A : Type} (l : list A) (w i : nat) :
  (w <= S i)%nat -> (i < length l)%nat -> length (window_at w l i) = w.
Proof.
  intros Hw Hi. rewrite window_full by assumption.
  rewrite length_firstn, length_skipn. lia.
Qed.

(** Consecutive full windows of a series are related entry by entry as
    the neighbours of the series are. *)
Lemma windows_neighbours (rel : Q -> Q -> Prop) (l : list Q) (w k : nat) :
  neighbours rel l -> (k + w < length l)%nat ->
  Forall2 rel (firstn w (skipn k l)) (firstn w (skipn (S k) l)).
Proof.
  intro Hrel. revert k. induction w as [| w IH]; intros k Hk.
  - constructor.
  - rewrite (skipn_nth_cons l k 0%Q) by lia.
    rewrite (skipn_nth_cons l (S k) 0%Q) by lia.
    cbn [firstn]. constructor.
    + apply Hrel. lia.
    + rewrite <- (skipn_nth_cons l (S k) 0%Q) by lia. apply IH. lia.
Qed.

Lemma Forall_firstn_of {A : Type} (P : A -> Prop) (n : nat) (l : list A) :
  Forall P l -> Forall P (firstn n l).
Proof.
  intro H. revert n. induction H as [| x l Hx _ IH]; intro n.
  - now rewrite firstn_nil.
  - destruct n as [| n]; cbn; constructor; auto.
Qed.

Lemma Forall_skipn_of {A : Type} (P : A -> Prop) (n : nat) (l : list A) :
  Forall P l -> Forall P (skipn n l).
Proof.
  intro H. revert n. induction H as [| x l Hx Hl IH]; intro n.
  - now rewrite skipn_nil.
  - destruct n as [| n]; cbn; [constructor |]; auto.
Qed.

Lemma Forall_window (P : Q -> Prop) (l : list Q) (w i : nat) :
  Forall P l -> Forall P (window_at w l i).
Proof.
  intro H. unfold window_at. now apply Forall_firstn_of, Forall_skipn_of.
Qed.

(** ** Sums and means *)

Lemma fold_Qplus_lt_acc (l1 l2 : list Q) :
  Forall2 Qlt l1 l2 ->
  forall a1 a2 : Q,
    (a1 < a2)%Q -> (fold_left Qplus l1 a1 < fold_left Qplus l2 a2)%Q.
Proof.
  induction 1 as [| x y l1 l2 Hxy _ IH]; intros a1 a2 Ha; [exact Ha |].
  cbn. apply IH. lra.
Qed.

Lemma Qsum_lt (l1 l2 : list Q) :
  Forall2 Qlt l1 l2 -> l1 <> [] -> (Qsum l1 < Qsum l2)%Q.
Proof.
  intros H Hne. unfold Qsum. destruct H as [| x y l1 l2 Hxy H]; [easy |].
  cbn. apply fold_Qplus_lt_acc; [assumption | lra].
Qed.

Lemma fold_Qplus_eq_acc (l1 l2 : list Q) :
  Forall2 Qeq l1 l2 ->
  forall a1 a2 : Q,
    (a1 == a2)%Q -> (fold_left Qplus l1 a1 == fold_left Qplus l2 a2)%Q.
Proof.
  induction 1 as [| x y l1 l2 Hxy _ IH]; intros a1 a2 Ha; [exact Ha |].
  cbn. apply IH. now rewrite Ha, Hxy.
Qed.

Lemma Qsum_eq (l1 l2 : list Q) : Forall2 Qeq l1 l2 -> (Qsum l1 == Qsum l2)%Q.
Proof. intro H. now apply fold_Qplus_eq_acc. Qed.

Lemma fold_Qplus_pos_acc (l : list Q) :
  Forall (Qlt 0) l ->
  forall a : Q, (0 < a)%Q -> (0 < fold_left Qplus l a)%Q.
Proof.
  induction 1 as [| x l Hx _ IH]; intros a Ha; [exact Ha |].
  cbn. apply IH. lra.
Qed.

Lemma Qsum_pos (l : list Q) : Forall (Qlt 0) l -> l <> [] -> (0 < Qsum l)%Q.
Proof.
  intros H Hne. unfold Qsum. destruct H as [| x l Hx H]; [easy |].
  cbn. apply fold_Qplus_pos_acc; [assumption | lra].
Qed.

Lemma mean_at_full (w : nat) (h : list Q) (i : nat) :
  (w <= S i)%nat -> (i < length h)%nat ->
  mean_at w h i =
  (Qsum (firstn w (skipn (S i - w) h)) / inject_Z (Z.of_nat w))%Q.
Proof.
  intros Hw Hi. unfold mean_at.
  now rewrite length_window_full, window_full.
Qed.

Lemma window_nonempty (w : nat) (h : list Q) (k : nat) :
  (0 < w)%nat -> (k + w <= length h)%nat -> firstn w (skipn k h) <> [].
Proof.
  intros Hw Hk E. apply (f_equal (@length Q)) in E.
  rewrite length_firstn, length_skipn in E. cbn in E. lia.
Qed.

Lemma inject_nat_pos (w : nat) : (0 < w)%nat -> (0 < inject_Z (Z.of_nat w))%Q.
Proof. intro H. apply inject_Z_pos. lia. Qed.

Lemma mean_at_pos (w : nat) (h : list Q) (i : nat) :
  (0 < w)%nat -> (w <= S i)%nat -> (i < length h)%nat ->
  Forall (Qlt 0) h -> (0 < mean_at w h i)%Q.
Proof.
  intros Hw Hwi Hi Hpos. rewrite mean_at_full by assumption.
  apply Qdiv_pos; [| now apply inject_nat_pos].
  apply Qsum_pos.
  - now apply Forall_firstn_of, Forall_skipn_of.
  - apply window_nonempty; lia.
Qed.

(** The rolling mean moves as the series does. *)
Lemma mean_at_increasing (w : nat) (h : list Q) (j : nat) :
  (0 < w)%nat -> (w <= S j)%nat -> (S j < length h)%nat ->
  increasing_series h -> (mean_at w h j < mean_at w h (S j))%Q.
Proof.
  intros Hw Hwj Hj Hinc. rewrite !mean_at_full by lia.
  replace (S (S j) - w)%nat with (S (S j - w)) by lia.
  apply Qmult_lt_compat_r.
  - apply Qinv_lt_0_compat. now apply inject_nat_pos.
  - apply Qsum_lt.
    + apply windows_neighbours; [assumption | lia].
    + apply window_nonempty; lia.
Qed.

Lemma mean_at_decreasing (w : nat) (h : list Q) (j : nat) :
  (0 < w)%nat -> (w <= S j)%nat -> (S j < length h)%nat ->
  decreasing_series h -> (mean_at w h (S j) < mean_at w h j)%Q.
Proof.
  intros Hw Hwj Hj Hdec. rewrite !mean_at_full by lia.
  replace (S (S j) - w)%nat with (S (S j - w)) by lia.
  apply Qmult_lt_compat_r.
  - apply Qinv_lt_0_compat. now apply inject_nat_pos.
  - apply Qsum_lt.
    + apply Forall2_flip.
      apply (windows_neighbours (fun a b => (b < a)%Q)); [assumption | lia].
    + apply window_nonempty; lia.
Qed.

Lemma mean_at_constant (w : nat) (h : list Q) (j : nat) :
  (0 < w)%nat -> (w <= S j)%nat -> (S j < length h)%nat ->
  constant_series h -> (mean_at w h j == mean_at w h (S j))%Q.
Proof.
  intros Hw Hwj Hj Hc. rewrite !mean_at_full by lia.
  replace (S (S j) - w)%nat with (S (S j - w)) by lia.
  apply Qmult_comp; [| reflexivity].
  apply Qsum_eq. apply windows_neighbours; [assumption | lia].
Qed.

(** ** Sums of numpy floats *)

Lemma fold_fadd_Fin (xs : list R) (a : R) :
  fold_left fadd (map Fin xs) (Fin a) = Fin (fold_left Rplus xs a).
Proof.
  revert a. induction xs as [| x xs IH]; intro a; [reflexivity |].
  cbn. apply IH.
Qed.

Lemma filter_Fin (xs : list R) :
  filter (fun x => negb (is_nan x)) (map Fin xs) = map Fin xs.
Proof.
  induction xs as [| x xs IH]; [reflexivity |]. cbn. now rewrite IH.
Qed.

Lemma fold_Rplus_pos (xs : list R) :
  Forall (Rlt 0) xs ->
  forall a : R, xs <> [] -> (a < fold_left Rplus xs a)%R.
Proof.
  induction 1 as [| x xs Hx _ IH]; intros a Hne; [easy |].
  cbn. destruct xs as [| y ys]; [cbn; lra |].
  assert (H : (a + x < fold_left Rplus (y :: ys) (a + x))%R)
    by (apply IH; discriminate).
  lra.
Qed.

Lemma fold_Rplus_neg (xs : list R) :
  Forall (fun x => (x < 0)%R) xs ->
  forall a : R, xs <> [] -> (fold_left Rplus xs a < a)%R.
Proof.
  induction 1 as [| x xs Hx _ IH]; intros a Hne; [easy |].
  cbn. destruct xs as [| y ys]; [cbn; lra |].
  assert (H : (fold_left Rplus (y :: ys) (a + x) < a + x)%R)
    by (apply IH; discriminate).
  lra.
Qed.

Lemma fold_Rplus_zero (xs : list R) :
  Forall (fun x => x = 0%R) xs ->
  forall a : R, fold_left Rplus xs a = a.
Proof.
  induction 1 as [| x xs Hx _ IH]; intro a; [reflexivity |].
  cbn. rewrite IH, Hx. lra.
Qed.

(** ** The trend score of a positive series *)

Lemma np_log_pos (q : Q) : (0 < q)%Q -> np_log q = Fin (ln (Q2R q)).
Proof. intro H. unfold np_log. now rewrite (proj2 (Qltb_true 0 q) H). Qed.

(** On a positive series twice as long as the window, the last rolling sum
    of the log differences is the finite [window_score]. *)
Lemma trend_last (w : nat) (h : list Q) :
  (0 < w)%nat -> (2 * w <= length h)%nat -> Forall (Qlt 0) h ->
  iloc_last (rolling_sum w (diff1 (map np_log (rolling_mean w h)))) =
  Ok (Fin (window_score w h)).
Proof.
  intros Hw Hlen Hpos.
  set (n := length h) in *.
  unfold rolling_mean. fold n. rewrite map_map.
  set (L := map (fun i => np_log (mean_at w h i)) (seq 0 n)).
  assert (HL : length L = n) by apply length_map_seq.
  unfold rolling_sum, diff1. rewrite HL, length_map_seq.
  rewrite iloc_last_map_seq by lia. f_equal.
  unfold sum_at. rewrite window_map_seq by lia.
  replace (S (n - 1) - w)%nat with (n - w)%nat by lia.
  assert (E : map (diff_at L) (seq (n - w) w) =
              map Fin (map (log_return w h) (seq (n - w) w))).
  { rewrite map_map. apply map_ext_in. intros i Hi.
    apply in_seq in Hi. destruct i as [| j]; [lia |].
    unfold diff_at, L. rewrite !nth_map_seq by lia.
    rewrite !np_log_pos by (apply mean_at_pos; auto; fold n; lia).
    unfold log_return. cbn [Nat.sub]. rewrite Nat.sub_0_r. reflexivity. }
  rewrite E, filter_Fin, !length_map, length_seq, Nat.ltb_irrefl.
  unfold window_score. fold n. apply fold_fadd_Fin.
Qed.

Lemma window_score_increasing (w : nat) (h : list Q) :
  (0 < w)%nat -> (2 * w <= length h)%nat -> Forall (Qlt 0) h ->
  increasing_series h -> (0 < window_score w h)%R.
Proof.
  intros Hw Hlen Hpos Hinc. unfold window_score.
  apply fold_Rplus_pos.
  - apply Forall_map, Forall_forall. intros i Hi. apply in_seq in Hi.
    destruct i as [| j]; [lia |].
    unfold log_return. cbn [Nat.sub]. rewrite Nat.sub_0_r.
    assert (Hm : (mean_at w h j < mean_at w h (S j))%Q)
      by (apply mean_at_increasing; auto; lia).
    assert (H0 : (0 < mean_at w h j)%Q) by (apply mean_at_pos; auto; lia).
    apply Qlt_Rlt in Hm. apply Q2R_pos in H0.
    pose proof (ln_increasing _ _ H0 Hm). lra.
  - intro E. apply (f_equal (@length R)) in E.
    rewrite length_map, length_seq in E. cbn in E. lia.
Qed.

Lemma window_score_decreasing (w : nat) (h : list Q) :
  (0 < w)%nat -> (2 * w <= length h)%nat -> Forall (Qlt 0) h ->
  decreasing_series h -> (window_score w h < 0)%R.
Proof.
  intros Hw Hlen Hpos Hdec. unfold window_score.
  apply fold_Rplus_neg.
  - apply Forall_map, Forall_forall. intros i Hi. apply in_seq in Hi.
    destruct i as [| j]; [lia |].
    unfold log_return. cbn [Nat.sub]. rewrite Nat.sub_0_r.
    assert (Hm : (mean_at w h (S j) < mean_at w h j)%Q)
      by (apply mean_at_decreasing; auto; lia).
    assert (H0 : (0 < mean_at w h (S j))%Q)
      by (apply mean_at_pos; auto; lia).
    apply Qlt_Rlt in Hm. apply Q2R_pos in H0.
    pose proof (ln_increasing _ _ H0 Hm). lra.
  - intro E. apply (f_equal (@length R)) in E.
    rewrite length_map, length_seq in E. cbn in E. lia.
Qed.

Lemma window_score_constant (w : nat) (h : list Q) :
  (0 < w)%nat -> (2 * w <= length h)%nat ->
  constant_series h -> window_score w h = 0%R.
Proof.
  intros Hw Hlen Hc. unfold window_score.
  apply fold_Rplus_zero.
  apply Forall_map, Forall_forall. intros i Hi. apply in_seq in Hi.
  destruct i as [| j]; [lia |].
  unfold log_return. cbn [Nat.sub]. rewrite Nat.sub_0_r.
  assert (Hm : (mean_at w h j == mean_at w h (S j))%Q)
    by (apply mean_at_constant; auto; lia).
  apply Qeq_eqR in Hm. rewrite Hm. lra.
Qed.

(** Truncation to the trend window keeps the shape of the series. *)
Lemma length_iloc_tail {A : Type} (n : nat) (l : list A) :
  (n <= length l)%nat -> length (iloc_tail n l) = n.
Proof. intro H. unfold iloc_tail. rewrite length_skipn. lia. Qed.

Lemma nth_skipn {A : Type} (k i : nat) (l : list A) (d : A) :
  nth i (skipn k l) d = nth (k + i) l d.
Proof.
  revert l. induction k as [| k IH]; intro l; [reflexivity |].
  destruct l as [| x l]; [now destruct i |]. cbn. apply IH.
Qed.

Lemma neighbours_iloc_tail (rel : Q -> Q -> Prop) (n : nat) (l : list Q) :
  neighbours rel l -> neighbours rel (iloc_tail n l).
Proof.
  intros H i Hi. unfold iloc_tail in *. rewrite length_skipn in Hi.
  rewrite !nth_skipn. rewrite Nat.add_succ_r. apply H. lia.
Qed.

(** What [trend_of_history] looks at: the last [ema_trend_window] points. *)
Lemma trend_of_history_value (h : list Q) :
  (260 <= length h)%nat -> Forall (Qlt 0) h ->
  exists h' : list Q,
    length h' = 260%nat /\ Forall (Qlt 0) h' /\
    (forall rel, neighbours rel h -> neighbours rel h') /\
    trend_of_history init h = Ok (Fin (window_score 5 h')).
Proof.
  intros Hlen Hpos. unfold trend_of_history.
  change (ema_trend_window init) with 260%nat.
  change (ema_window init) with 5%nat.
  destruct (Nat.ltb_spec 260 (length h)) as [Hlt | Hge].
  - exists (iloc_tail 260 h).
    assert (Hl : length (iloc_tail 260 h) = 260%nat)
      by (apply length_iloc_tail; lia).
    split; [exact Hl |].
    split; [now apply Forall_skipn_of |].
    split; [intros rel; apply neighbours_iloc_tail |].
    apply trend_last; [lia | rewrite Hl; lia | now apply Forall_skipn_of].
  - exists h. split; [lia |]. split; [assumption |].
    split; [auto |].
    apply trend_last; [lia | lia | assumption].
Qed.

(** ** The trend scorer on a downloaded history *)

Lemma calculate_trend_score_no_history (w : World) (p : Q) :
  history w = None -> fst (calculate_trend_score init w p) = no_trend_data.
Proof.
  unfold history, calculate_trend_score, trend_score_body.
  destruct (get_spx_historical_data w 300) as [[h |] out]; cbn [fst];
    [discriminate | reflexivity].
Qed.

Lemma calculate_trend_score_short_history (w : World) (p : Q) (h : list Q) :
  history w = Some h -> (length h < 260)%nat ->
  fst (calculate_trend_score init w p) = no_trend_data.
Proof.
  unfold history, calculate_trend_score, trend_score_body.
  destruct (get_spx_historical_data w 300) as [[h' |] out]; cbn [fst];
    [| discriminate].
  intros [= ->] Hlen. change (ema_trend_window init) with 260%nat.
  destruct (Nat.ltb_spec (length h) 260); [reflexivity | lia].
Qed.

Lemma calculate_trend_score_long_history (w : World) (p : Q) (h : list Q)
    (s : npfloat) :
  history w = Some h -> (260 <= length h)%nat ->
  trend_of_history init h = Ok s ->
  fst (calculate_trend_score init w p) =
  {| raw_score := s;
     should_trade_long := fgtb s 0;
     should_trade_short := fltb s 0;
     vix_level := get_vix_level w;
     interpretation := interpret s |}.
Proof.
  unfold history, calculate_trend_score, trend_score_body.
  destruct (get_spx_historical_data w 300) as [[h' |] out]; cbn [fst];
    [| discriminate].
  intros [= ->] Hlen Hs. change (ema_trend_window init) with 260%nat.
  destruct (Nat.ltb_spec (length h) 260); [lia |].
  rewrite Hs. reflexivity.
Qed.

(** Only the fallback carries the text "No trend data available". *)
Lemma interpretation_marker (w : World) (p : Q) :
  interpretation (fst (calculate_trend_score init w p))
  = "No trend data available"%string ->
  history w = None \/
  exists h, history w = Some h /\ (length h < 260)%nat.
Proof.
  unfold history, calculate_trend_score, trend_score_body.
  destruct (get_spx_historical_data w 300) as [[h |] out]; cbn [fst];
    [| now left].
  change (ema_trend_window init) with 260%nat.
  destruct (Nat.ltb_spec (length h) 260) as [Hlt | Hge].
  - intros _. right. now exists h.
  - destruct (trend_of_history init h) as [s | e]; cbn.
    + unfold interpret.
      destruct (fgtb s (2 / 100)); [discriminate |].
      destruct (fgtb s 0); [discriminate |].
      destruct (fgtb s (- 2 / 100)); discriminate.
    + discriminate.
Qed.

(** C6: on a positive history of at least 260 points the raw score is the
    last rolling sum of the log differences of the rolling mean; it is
    exactly 0 when the series is constant, above 0 when the series rises
    strictly and below 0 when it falls strictly. *)
Theorem trend_score_sign (w : World) (p : Q) (h : list Q) :
  history w = Some h -> (260 <= length h)%nat -> Forall (Qlt 0) h ->
  let res := fst (calculate_trend_score init w p) in
  trend_of_history init h = Ok (raw_score res) /\
  (constant_series h -> raw_score res = Fin 0) /\
  (increasing_series h ->
   exists x : R, raw_score res = Fin x /\ (0 < x)%R) /\
  (decreasing_series h ->
   exists x : R, raw_score res = Fin x /\ (x < 0)%R).
Proof.
  intros Hh Hlen Hpos res.
  destruct (trend_of_history_value h Hlen Hpos)
    as [h' [Hl' [Hpos' [Hshape Hval]]]].
  assert (Hres : raw_score res = Fin (window_score 5 h')).
  { unfold res.
    now rewrite (calculate_trend_score_long_history w p h _ Hh Hlen Hval). }
  rewrite Hres. split; [exact Hval |].
  split; [| split].
  - intro Hc. f_equal. apply window_score_constant; [lia | lia |].
    now apply Hshape.
  - intro Hinc. eexists. split; [reflexivity |].
    apply window_score_increasing; [lia | lia | assumption |].
    now apply Hshape.
  - intro Hdec. eexists. split; [reflexivity |].
    apply window_score_decreasing; [lia | lia | assumption |].
    now apply (Hshape (fun a b => (b < a)%Q)).
Qed.

Lemma neighbours_map_seq (rel : Q -> Q -> Prop) (f : nat -> Q) (n : nat) :
  (forall i : nat, (S i < n)%nat -> rel (f i) (f (S i))) ->
  neighbours rel (map f (seq 0 n)).
Proof.
  intros H i Hi. rewrite length_map_seq in Hi.
  rewrite !nth_map_seq by lia. now apply H.
Qed.

Lemma Forall_map_seq (P : Q -> Prop) (f : nat -> Q) (n : nat) :
  (forall i : nat, (i < n)%nat -> P (f i)) -> Forall P (map f (seq 0 n)).
Proof.
  intro H. apply Forall_map, Forall_forall. intros i Hi.
  apply in_seq in Hi. apply H. lia.
Qed.

Lemma history_world_with (f : nat -> Q) :
  history (world_with (map f (seq 0 260))) =
  Some (map (fun i => f i * 10)%Q (seq 0 260)).
Proof. rewrite <- (map_map f (fun c => c * 10)%Q). reflexivity. Qed.

Lemma trend_score_sign_witness :
  raw_score (fst (calculate_trend_score init world_flat 5820)) = Fin 0 /\
  (exists x : R,
      raw_score (fst (calculate_trend_score init world_rising 5820)) = Fin x /\
      (0 < x)%R) /\
  (exists x : R,
      raw_score (fst (calculate_trend_score init world_falling 5820)) = Fin x /\
      (x < 0)%R).
Proof.
  split; [| split].
  - apply (trend_score_sign world_flat 5820 _ (history_world_with _)).
    + rewrite length_map_seq. lia.
    + apply Forall_map_seq. intros. reflexivity.
    + apply neighbours_map_seq. intros. reflexivity.
  - apply (trend_score_sign world_rising 5820 _ (history_world_with _)).
    + rewrite length_map_seq. lia.
    + apply Forall_map_seq. intros i Hi.
      pose proof (inject_Z_pos (Z.of_nat (500 + i)) ltac:(lia)). lra.
    + apply neighbours_map_seq. intros i Hi.
      apply Qmult_lt_compat_r; [reflexivity |].
      rewrite <- Zlt_Qlt. lia.
  - apply (trend_score_sign world_falling 5820 _ (history_world_with _)).
    + rewrite length_map_seq. lia.
    + apply Forall_map_seq. intros i Hi.
      pose proof (inject_Z_pos (Z.of_nat (1000 - i)) ltac:(lia)). lra.
    + apply neighbours_map_seq. intros i Hi.
      apply Qmult_lt_compat_r; [reflexivity |].
      rewrite <- Zlt_Qlt. lia.
Defined.

(** C7: when the history is absent or has fewer than 260 points the scorer
    returns, without failing, the fallback: raw score 0, neither long nor
    short, volatility 18.0 and the interpretation "No trend data
    available"; no other result carries that text, so it marks that nothing
    was computed. *)
Theorem insufficient_history_fallback (w : World) (p : Q) :
  (history w = None \/
   exists h, history w = Some h /\ (length h < 260)%nat) ->
  let res := fst (calculate_trend_score init w p) in
  res = no_trend_data /\
  raw_score res = Fin 0 /\
  should_trade_long res = false /\
  should_trade_short res = false /\
  vix_level res = 18%Q /\
  interpretation res = "No trend data available"%string /\
  (forall (w' : World) (p' : Q),
      interpretation (fst (calculate_trend_score init w' p'))
      = "No trend data available"%string ->
      history w' = None \/
      exists h, history w' = Some h /\ (length h < 260)%nat).
Proof.
  intros Hins res.
  assert (Hres : res = no_trend_data).
  { destruct Hins as [Hnone | [h [Hh Hlen]]].
    - now apply calculate_trend_score_no_history.
    - now apply (calculate_trend_score_short_history w p h). }
  rewrite Hres. repeat split. apply interpretation_marker.
Qed.

Lemma insufficient_history_fallback_witness :
  fst (calculate_trend_score init world_offline 5820) = no_trend_data /\
  fst (calculate_trend_score init world_short 5820) = no_trend_data.
Proof.
  split.
  - apply (insufficient_history_fallback world_offline 5820).
    left. reflexivity.
  - apply (insufficient_history_fallback world_short 5820).
    right. eexists. split; [reflexivity |]. cbn. lia.
Defined.

(** C8 (as it holds on the code): the scorer never reads its argument, and
    its result and printed lines are determined by what the two downloads
    deliver: the SPY closes for a look-back of 300 days and the VIX
    closes. *)
Theorem trend_score_determined_by_downloads :
  (forall (w : World) (p1 p2 : Q),
      calculate_trend_score init w p1 = calculate_trend_score init w p2) /\
  (forall (w1 w2 : World) (p : Q),
      spy_download w1 300%nat = spy_download w2 300%nat ->
      vix_download w1 = vix_download w2 ->
      calculate_trend_score init w1 p = calculate_trend_score init w2 p).
Proof.
  split; [reflexivity |].
  intros w1 w2 p Hspy Hvix.
  unfold calculate_trend_score, trend_score_body, get_spx_historical_data,
    get_vix_level.
  now rewrite Hspy, Hvix.
Qed.

Lemma trend_score_determined_by_downloads_witness :
  calculate_trend_score init world_flat 5820 =
  calculate_trend_score init world_flat_only_300 5820.
Proof.
  apply (proj2 trend_score_determined_by_downloads); reflexivity.
Defined.

(** C8, refuted: with the same argument the scorer returns different
    results when the downloads differ, and a failed download makes it
    print. *)
Lemma trend_score_observes_world :
  fst (calculate_trend_score init world_offline 5820) <>
  fst (calculate_trend_score init world_flat 5820) /\
  snd (calculate_trend_score init world_offline 5820) =
  ["Error fetching historical data: timed out"%string].
Proof.
  split; [| reflexivity].
  intro E.
  assert (Hm : interpretation
                 (fst (calculate_trend_score init world_flat 5820))
               = "No trend data available"%string)
    by (rewrite <- E; reflexivity).
  apply interpretation_marker in Hm.
  unfold world_flat, closes_flat in Hm.
  rewrite history_world_with in Hm.
  destruct Hm as [Hm | [h [Hh Hlen]]]; [discriminate |].
  injection Hh as Hh. subst h. cbn [length] in Hlen. lia.
Qed.

(** * Further properties of the code *)

(** ** The call side and the distance from the money *)

Lemma Qceiling_mult_ge (a : Q) (b : Z) :
  (0 < b)%Z -> (a <= inject_Z (Qceiling (a / inject_Z b) * b))%Q.
Proof.
  intro Hb. pose proof (inject_Z_pos b Hb) as Hb'.
  rewrite inject_Z_mult.
  apply Qle_trans with ((a / inject_Z b) * inject_Z b)%Q.
  - rewrite Qmult_comm, Qmult_div_r; [apply Qle_refl |].
    intro H. rewrite H in Hb'. now apply Qlt_irrefl in Hb'.
  - apply Qmult_le_compat_r; [apply Qle_ceiling | now apply Qlt_le_weak].
Qed.

Lemma Qfloor_mult_gt (a : Q) (b : Z) :
  (0 < b)%Z -> (a < inject_Z (Qfloor (a / inject_Z b) * b + b))%Q.
Proof.
  intro Hb. pose proof (inject_Z_pos b Hb) as Hb'.
  replace (Qfloor (a / inject_Z b) * b + b)%Z
    with ((Qfloor (a / inject_Z b) + 1) * b)%Z by ring.
  rewrite inject_Z_mult.
  apply Qle_lt_trans with ((a / inject_Z b) * inject_Z b)%Q.
  - rewrite Qmult_comm, Qmult_div_r; [apply Qle_refl |].
    intro H. rewrite H in Hb'. now apply Qlt_irrefl in Hb'.
  - apply Qmult_lt_compat_r; [assumption | apply Qlt_floor].
Qed.

Lemma Qceiling_mult_lt (a : Q) (b : Z) :
  (0 < b)%Z -> (inject_Z (Qceiling (a / inject_Z b) * b - b) < a)%Q.
Proof.
  intro Hb. pose proof (inject_Z_pos b Hb) as Hb'.
  replace (Qceiling (a / inject_Z b) * b - b)%Z
    with ((Qceiling (a / inject_Z b) - 1) * b)%Z by ring.
  rewrite inject_Z_mult.
  apply Qlt_le_trans with ((a / inject_Z b) * inject_Z b)%Q.
  - apply Qmult_lt_compat_r; [assumption | apply Qceiling_lt].
  - rewrite Qmult_comm, Qmult_div_r; [apply Qle_refl |].
    intro H. rewrite H in Hb'. now apply Qlt_irrefl in Hb'.
Qed.





(** ** Deltas of the two legs *)

Lemma get_strike_recommendations_deltas (Phi : R -> R) (p : Q)
    (ot : OptionType) (rec : StrikeRec) :
  get_strike_recommendations Phi init p ot = Ok rec ->
  short_strike rec <> 0%Z /\ long_strike rec <> 0%Z /\
  short_delta rec =
    delta_of_d1 Phi
      (black_scholes_d1 (p / inject_Z (short_strike rec)) (1 # 365) (5 # 100)
         (20 # 100)) ot /\
  long_delta rec =
    delta_of_d1 Phi
      (black_scholes_d1 (p / inject_Z (long_strike rec)) (1 # 365) (5 # 100)
         (20 # 100)) ot.
Proof.
  unfold get_strike_recommendations.
  destruct (select_strikes init p ot) as [[[s l] d] | e]; [| discriminate].
  cbn [bind]. rewrite !pipeline_delta.
  destruct (Z.eqb_spec s 0) as [| Hs]; [discriminate |].
  destruct (Z.eqb_spec l 0) as [| Hl]; [discriminate |].
  cbn [bind]. intro H. injection H as <-. cbn. auto.
Qed.

(** The strikes of a returned recommendation are positive when the price
    is. *)
Lemma returned_strikes_positive (Phi : R -> R) (p : Q) (ot : OptionType)
    (rec : StrikeRec) :
  (0 < p)%Q ->
  get_strike_recommendations Phi init p ot = Ok rec ->
  (0 < short_strike rec)%Z /\ (0 < long_strike rec)%Z /\
  long_strike rec =
    match ot with
    | Put => (short_strike rec - 5)%Z
    | Call => (short_strike rec + 5)%Z
    end.
Proof.
  intros Hp Hrec.
  destruct (get_strike_recommendations_deltas Phi p ot rec Hrec)
    as [Hs [Hl _]].
  destruct (get_strike_recommendations_fields Phi p ot rec Hrec)
    as [Hsel _].
  destruct ot.
  - rewrite select_strikes_put in Hsel. cbv zeta in Hsel.
    set (t := (p - p * (15 # 10000))%Q) in *.
    assert (Ht : (0 <= Qfloor (t / 5))%Z).
    { apply Qfloor_ge. apply Qlt_le_weak, Qdiv_pos; [unfold t; lra |
      reflexivity]. }
    assert (E1 : short_strike rec = (Qfloor (t / 5) * 5)%Z) by congruence.
    assert (E2 : long_strike rec = (Qfloor (t / 5) * 5 - 5)%Z)
      by congruence.
    lia.
  - rewrite select_strikes_call in Hsel. cbv zeta in Hsel.
    set (u := (p + p * (15 # 10000))%Q) in *.
    assert (Hu : (1 <= Qceiling (u / 5))%Z).
    { apply Qceiling_pos, Qdiv_pos; [unfold u; lra | reflexivity]. }
    assert (E1 : short_strike rec = (Qceiling (u / 5) * 5)%Z) by congruence.
    assert (E2 : long_strike rec = (Qceiling (u / 5) * 5 + 5)%Z)
      by congruence.
    lia.
Qed.

(** [d1] at the pipeline's fixed expiry, rate and volatility, as a real. *)
Lemma pipeline_d1_finite (p : Q) (K : Z) :
  (0 < p)%Q -> (0 < K)%Z ->
  exists x : R,
    black_scholes_d1 (p / inject_Z K) (1 # 365) (5 # 100) (20 # 100) = Fin x /\
    x = ((ln (Q2R (p / inject_Z K))
          + Q2R (((5 # 100) + (1 # 2) * (20 # 100) ^ 2) * (1 # 365)))
         / (Q2R (20 # 100) * sqrt (Q2R (1 # 365))))%R.
Proof.
  intros Hp HK. eexists. split; [| reflexivity].
  apply black_scholes_d1_finite; try reflexivity.
  apply Qdiv_pos; [assumption | now apply inject_Z_pos].
Qed.

(** A higher strike has a lower [d1]. *)
Lemma pipeline_d1_decreasing (p : Q) (K1 K2 : Z) (x1 x2 : R) :
  (0 < p)%Q -> (0 < K1)%Z -> (K1 < K2)%Z ->
  black_scholes_d1 (p / inject_Z K1) (1 # 365) (5 # 100) (20 # 100) = Fin x1 ->
  black_scholes_d1 (p / inject_Z K2) (1 # 365) (5 # 100) (20 # 100) = Fin x2 ->
  (x2 < x1)%R.
Proof.
  intros Hp HK1 HK12 E1 E2.
  destruct (pipeline_d1_finite p K1 Hp HK1) as [y1 [F1 D1]].
  destruct (pipeline_d1_finite p K2 Hp ltac:(lia)) as [y2 [F2 D2]].
  assert (x1 = y1) by congruence. assert (x2 = y2) by congruence.
  subst x1 x2. rewrite D1, D2. clear E1 E2 F1 F2 D1 D2.
  pose proof (inject_Z_pos K1 HK1) as HK1'.
  pose proof (inject_Z_pos K2 ltac:(lia)) as HK2'.
  assert (Hq : (p / inject_Z K2 < p / inject_Z K1)%Q).
  { apply Qlt_shift_div_l; [assumption |].
    unfold Qdiv. rewrite <- Qmult_assoc, (Qmult_comm (/ _)), Qmult_assoc.
    apply Qlt_shift_div_r; [assumption |].
    apply Qmult_lt_l; [assumption |]. rewrite <- Zlt_Qlt. assumption. }
  assert (H0 : (0 < p / inject_Z K2)%Q) by now apply Qdiv_pos.
  apply Qlt_Rlt in Hq. apply Q2R_pos in H0.
  pose proof (ln_increasing _ _ H0 Hq) as Hln.
  assert (HD : (0 < Q2R (20 # 100) * sqrt (Q2R (1 # 365)))%R).
  { apply Rmult_lt_0_compat; [apply Q2R_pos; reflexivity |].
    apply sqrt_lt_R0, Q2R_pos. reflexivity. }
  unfold Rdiv. apply Rmult_lt_compat_r; [now apply Rinv_0_lt_compat | lra].
Qed.

Lemma logistic_monotone (x y : R) :
  (x <= y)%R -> (logistic x <= logistic y)%R.
Proof.
  intro Hxy. unfold logistic.
  pose proof (exp_pos (- x)) as Hx. pose proof (exp_pos (- y)) as Hy.
  assert (He : (exp (- y) <= exp (- x))%R).
  { destruct Hxy as [Hlt | ->]; [| lra].
    apply Rlt_le, exp_increasing. lra. }
  unfold Rdiv. rewrite !Rmult_1_l.
  apply Rinv_le_contravar; lra.
Qed.

Lemma logistic_symmetric (x : R) : logistic (- x) = (1 - logistic x)%R.
Proof.
  unfold logistic. rewrite Ropp_involutive, exp_Ropp.
  pose proof (exp_pos x) as Hx. field. split; lra.
Qed.

Section DeltaOrder.

Variable Phi : R -> R.
Hypothesis Phi_range : forall x : R, (0 <= Phi x <= 1)%R.
Hypothesis Phi_monotone : forall x y : R, (x <= y)%R -> (Phi x <= Phi y)%R.

(** X3: in every recommendation returned for a positive price the long leg
    has the smaller delta in absolute value: on the put side
    [-1 <= short_delta <= long_delta <= 0], on the call side
    [0 <= long_delta <= short_delta <= 1] (for a distribution function that
    is monotone with values in [0, 1]). *)
Theorem long_leg_delta_smaller (p : Q) (ot : OptionType) (rec : StrikeRec) :
  (0 < p)%Q ->
  get_strike_recommendations Phi init p ot = Ok rec ->
  exists ds dl : R,
    short_delta rec = Fin ds /\ long_delta rec = Fin dl /\
    match ot with
    | Put => (-1 <= ds <= dl)%R /\ (dl <= 0)%R
    | Call => (0 <= dl <= ds)%R /\ (ds <= 1)%R
    end.
Proof.
  intros Hp Hrec.
  destruct (get_strike_recommendations_deltas Phi p ot rec Hrec)
    as [_ [_ [Hsd Hld]]].
  destruct (returned_strikes_positive Phi p ot rec Hp Hrec)
    as [Hs [Hl Hsl]].
  destruct (pipeline_d1_finite p _ Hp Hs) as [xs [Fs _]].
  destruct (pipeline_d1_finite p _ Hp Hl) as [xl [Fl _]].
  rewrite Fs in Hsd. rewrite Fl in Hld.
  destruct ot; cbn [delta_of_d1 norm_cdf fneg] in Hsd, Hld.
  - exists (- Phi (- xs))%R, (- Phi (- xl))%R.
    split; [exact Hsd |]. split; [exact Hld |].
    assert (Hx : (xs < xl)%R).
    { apply (pipeline_d1_decreasing p (long_strike rec) (short_strike rec));
        auto; lia. }
    pose proof (Phi_range (- xs)%R). pose proof (Phi_range (- xl)%R).
    pose proof (Phi_monotone (- xl)%R (- xs)%R ltac:(lra)). lra.
  - exists (Phi xs), (Phi xl).
    split; [exact Hsd |]. split; [exact Hld |].
    assert (Hx : (xl < xs)%R).
    { apply (pipeline_d1_decreasing p (short_strike rec) (long_strike rec));
        auto; lia. }
    pose proof (Phi_range xs). pose proof (Phi_range xl).
    pose proof (Phi_monotone xl xs ltac:(lra)). lra.
Qed.

End DeltaOrder.

Lemma long_leg_delta_smaller_witness :
  exists rec ds dl,
    get_strike_recommendations logistic init 5820 Put = Ok rec /\
    short_delta rec = Fin ds /\ long_delta rec = Fin dl /\
    (ds <= dl)%R /\ (dl <= 0)%R.
Proof.
  assert (Hret : returns (get_strike_recommendations logistic init 5820 Put)
                 = true)
    by (rewrite get_strike_recommendations_returns; reflexivity).
  destruct (returns_true _ Hret) as [rec Hrec].
  destruct (long_leg_delta_smaller logistic logistic_range logistic_monotone
              5820 Put rec ltac:(reflexivity) Hrec)
    as [ds [dl [Hs [Hl [[_ H1] H2]]]]].
  exists rec, ds, dl. auto.
Defined.

Section DeltaParity.

Variable Phi : R -> R.
Hypothesis Phi_symmetric : forall x : R, Phi (- x) = (1 - Phi x)%R.

(** X4: for a positive spot, strike, expiry and volatility the put delta is
    the call delta minus one (for a distribution function symmetric about
    zero, as the normal one is). *)
Theorem put_call_delta_parity (S K T r sigma : Q) :
  (0 < S)%Q -> (0 < K)%Q -> (0 < T)%Q -> (0 < sigma)%Q ->
  exists c : R,
    calculate_black_scholes_delta Phi S K T r sigma Call = Ok (Fin c) /\
    calculate_black_scholes_delta Phi S K T r sigma Put = Ok (Fin (c - 1)).
Proof.
  intros HS HK HT Hs.
  unfold calculate_black_scholes_delta, py_truediv.
  rewrite (Qle_bool_pos _ HT), (Qeq_bool_pos _ HK). cbn [bind].
  rewrite (black_scholes_d1_finite _ _ _ _ (Qdiv_pos _ _ HS HK) HT Hs).
  cbn [delta_of_d1 norm_cdf fneg].
  eexists. split; [reflexivity |].
  rewrite Phi_symmetric. do 2 f_equal. lra.
Qed.

End DeltaParity.

Lemma put_call_delta_parity_witness :
  exists c : R,
    calculate_black_scholes_delta logistic 5820 5810 (1 # 365) (5 # 100)
      (20 # 100) Call = Ok (Fin c) /\
    calculate_black_scholes_delta logistic 5820 5810 (1 # 365) (5 # 100)
      (20 # 100) Put = Ok (Fin (c - 1)).
Proof.
  apply (put_call_delta_parity logistic logistic_symmetric);
    reflexivity.
Defined.

(** ** The trend score in closed form *)

Lemma telescope (a : nat -> R) (k w : nat) :
  fold_left Rplus (map (fun i => a i - a (i - 1)%nat)%R (seq k w)) 0%R =
  (a (k + w - 1)%nat - a (k - 1)%nat)%R.
Proof.
  induction w as [| w IH].
  - cbn. replace (k + 0 - 1)%nat with (k - 1)%nat by lia. lra.
  - rewrite seq_S, map_app, fold_left_app, IH. cbn.
    replace (k + S w - 1)%nat with (k + w)%nat by lia. lra.
Qed.

Lemma window_score_closed (h : list Q) :
  (10 <= length h)%nat ->
  window_score 5 h =
  (ln (Q2R (recent_mean h)) - ln (Q2R (previous_mean h)))%R.
Proof.
  intro Hlen. unfold window_score.
  rewrite (telescope (fun i => ln (Q2R (mean_at 5 h i)))).
  rewrite !mean_at_full by lia.
  replace (S (length h - 5 + 5 - 1) - 5)%nat with (length h - 5)%nat by lia.
  replace (S (length h - 5 - 1) - 5)%nat with (length h - 10)%nat by lia.
  reflexivity.
Qed.

Lemma recent_mean_iloc_tail (n : nat) (h : list Q) :
  (5 <= n)%nat -> (n <= length h)%nat ->
  recent_mean (iloc_tail n h) = recent_mean h.
Proof.
  intros Hn Hlen. unfold recent_mean, iloc_tail.
  rewrite length_skipn, skipn_skipn.
  replace (length h - (length h - n) - 5 + (length h - n))%nat
    with (length h - 5)%nat by lia.
  reflexivity.
Qed.

Lemma previous_mean_iloc_tail (n : nat) (h : list Q) :
  (10 <= n)%nat -> (n <= length h)%nat ->
  previous_mean (iloc_tail n h) = previous_mean h.
Proof.
  intros Hn Hlen. unfold previous_mean, iloc_tail.
  rewrite length_skipn, skipn_skipn.
  replace (length h - (length h - n) - 10 + (length h - n))%nat
    with (length h - 10)%nat by lia.
  reflexivity.
Qed.

(** The score is the log of the mean of the last five closes minus the log
    of the mean of the five closes before them. *)
Lemma trend_of_history_closed (h : list Q) :
  (260 <= length h)%nat -> Forall (Qlt 0) h ->
  trend_of_history init h =
  Ok (Fin (ln (Q2R (recent_mean h)) - ln (Q2R (previous_mean h)))).
Proof.
  intros Hlen Hpos. unfold trend_of_history.
  change (ema_trend_window init) with 260%nat.
  change (ema_window init) with 5%nat.
  destruct (Nat.ltb_spec 260 (length h)) as [Hlt | Hge].
  - assert (Hl : length (iloc_tail 260 h) = 260%nat)
      by (apply length_iloc_tail; lia).
    rewrite trend_last;
      [| lia | rewrite Hl; lia | now apply Forall_skipn_of].
    rewrite window_score_closed by (rewrite Hl; lia).
    rewrite recent_mean_iloc_tail, previous_mean_iloc_tail by lia.
    reflexivity.
  - rewrite trend_last by (assumption || lia).
    now rewrite window_score_closed by lia.
Qed.

Lemma recent_mean_pos (h : list Q) :
  (5 <= length h)%nat -> Forall (Qlt 0) h -> (0 < recent_mean h)%Q.
Proof.
  intros Hlen Hpos. unfold recent_mean.
  apply Qdiv_pos; [| reflexivity].
  apply Qsum_pos.
  - now apply Forall_firstn_of, Forall_skipn_of.
  - apply window_nonempty; lia.
Qed.

Lemma previous_mean_pos (h : list Q) :
  (10 <= length h)%nat -> Forall (Qlt 0) h -> (0 < previous_mean h)%Q.
Proof.
  intros Hlen Hpos. unfold previous_mean.
  apply Qdiv_pos; [| reflexivity].
  apply Qsum_pos.
  - now apply Forall_firstn_of, Forall_skipn_of.
  - apply window_nonempty; lia.
Qed.

(** X5: on a positive history of at least 260 points the raw score is
    [ln (mean of the last 5 closes) - ln (mean of the 5 closes before)]:
    the rolling sum of log differences telescopes, and only the last ten
    closes matter. *)
Theorem trend_score_closed_form (w : World) (p : Q) (h : list Q) :
  history w = Some h -> (260 <= length h)%nat -> Forall (Qlt 0) h ->
  raw_score (fst (calculate_trend_score init w p)) =
  Fin (ln (Q2R (recent_mean h)) - ln (Q2R (previous_mean h))).
Proof.
  intros Hh Hlen Hpos.
  now rewrite (calculate_trend_score_long_history w p h _ Hh Hlen
                 (trend_of_history_closed h Hlen Hpos)).
Qed.

Lemma closes_flat_positive :
  Forall (Qlt 0) (map (fun i : nat => 582 * 10)%Q (seq 0 260)).
Proof. apply Forall_map_seq. intros. reflexivity. Qed.

Lemma closes_rising_positive :
  Forall (Qlt 0)
    (map (fun i : nat => inject_Z (Z.of_nat (500 + i)) * 10)%Q (seq 0 260)).
Proof.
  apply Forall_map_seq. intros i Hi.
  pose proof (inject_Z_pos (Z.of_nat (500 + i)) ltac:(lia)). lra.
Qed.

Lemma trend_score_closed_form_witness :
  let h := map (fun i : nat => inject_Z (Z.of_nat (500 + i)) * 10)%Q
             (seq 0 260) in
  raw_score (fst (calculate_trend_score init world_rising 5820)) =
  Fin (ln (Q2R (recent_mean h)) - ln (Q2R (previous_mean h))).
Proof.
  intro h.
  apply (trend_score_closed_form world_rising 5820 h
           (history_world_with _)).
  - unfold h. rewrite length_map_seq. lia.
  - exact closes_rising_positive.
Defined.

Lemma log_difference_pos (a b : Q) :
  (0 < a)%Q -> (0 < b)%Q ->
  (0 < ln (Q2R a) - ln (Q2R b))%R <-> (b < a)%Q.
Proof.
  intros Ha Hb. pose proof (Q2R_pos a Ha) as Ha'.
  pose proof (Q2R_pos b Hb) as Hb'.
  split.
  - intro H. apply Rlt_Qlt. apply ln_lt_inv; [assumption | assumption | lra].
  - intro H. apply Qlt_Rlt in H.
    pose proof (ln_increasing _ _ Hb' H). lra.
Qed.

Lemma should_trade_iff (w : World) (p : Q) (h : list Q) :
  history w = Some h -> (260 <= length h)%nat -> Forall (Qlt 0) h ->
  let res := fst (calculate_trend_score init w p) in
  (should_trade_long res = true <-> (previous_mean h < recent_mean h)%Q) /\
  (should_trade_short res = true <-> (recent_mean h < previous_mean h)%Q).
Proof.
  intros Hh Hlen Hpos res. unfold res.
  rewrite (calculate_trend_score_long_history w p h _ Hh Hlen
             (trend_of_history_closed h Hlen Hpos)).
  cbn [should_trade_long should_trade_short fgtb fltb].
  pose proof (recent_mean_pos h ltac:(lia) Hpos) as Hr.
  pose proof (previous_mean_pos h ltac:(lia) Hpos) as Hq.
  pose proof (log_difference_pos _ _ Hr Hq) as Hlong.
  pose proof (log_difference_pos _ _ Hq Hr) as Hshort.
  split.
  - destruct (Rlt_dec 0 _) as [H | H].
    + split; [intros _; now apply Hlong | reflexivity].
    + split; [discriminate | intro H'; apply Hlong in H'; contradiction].
  - destruct (Rlt_dec _ 0) as [H | H].
    + split; [intros _; apply Hshort; lra | reflexivity].
    + split; [discriminate | intro H'; apply Hshort in H'; lra].
Qed.

(** X6: on a positive history of at least 260 points the scorer asks for a
    long trade exactly when the mean of the last five closes is above the
    mean of the five before, and for a short trade exactly when it is
    below. *)
Theorem trade_direction_rule (w : World) (p : Q) (h : list Q) :
  history w = Some h -> (260 <= length h)%nat -> Forall (Qlt 0) h ->
  (should_trade_long (fst (calculate_trend_score init w p)) = true <->
   (previous_mean h < recent_mean h)%Q) /\
  (should_trade_short (fst (calculate_trend_score init w p)) = true <->
   (recent_mean h < previous_mean h)%Q).
Proof. intros Hh Hlen Hpos. exact (should_trade_iff w p h Hh Hlen Hpos). Qed.

Lemma trade_direction_rule_witness :
  should_trade_long (fst (calculate_trend_score init world_rising 5820))
  = true.
Proof.
  apply (proj1 (trade_direction_rule world_rising 5820 _
                  (history_world_with _)
                  ltac:(rewrite length_map_seq; lia)
                  closes_rising_positive)).
  vm_compute. reflexivity.
Defined.

(** ** Scaling of the closes *)

Lemma Forall2_Qeq_refl (l : list Q) : Forall2 Qeq l l.
Proof. induction l; constructor; [reflexivity | assumption]. Qed.

Lemma fold_Qplus_scale (c : Q) (l : list Q) :
  forall a : Q,
    (fold_left Qplus (map (fun x => x * c) l) (a * c)
     == fold_left Qplus l a * c)%Q.
Proof.
  induction l as [| x l IH]; intro a; [reflexivity |].
  cbn. rewrite <- IH.
  apply fold_Qplus_eq_acc; [apply Forall2_Qeq_refl | ring].
Qed.

Lemma Qsum_scale (c : Q) (l : list Q) :
  (Qsum (map (fun x => x * c) l) == Qsum l * c)%Q.
Proof.
  unfold Qsum. rewrite <- fold_Qplus_scale.
  apply fold_Qplus_eq_acc; [apply Forall2_Qeq_refl | ring].
Qed.

Lemma recent_mean_scale (c : Q) (h : list Q) :
  (recent_mean (map (fun x => x * c) h) == recent_mean h * c)%Q.
Proof.
  unfold recent_mean. rewrite length_map, skipn_map, firstn_map, Qsum_scale.
  field.
Qed.

Lemma previous_mean_scale (c : Q) (h : list Q) :
  (previous_mean (map (fun x => x * c) h) == previous_mean h * c)%Q.
Proof.
  unfold previous_mean.
  rewrite length_map, skipn_map, firstn_map, Qsum_scale. field.
Qed.

Lemma Forall_scale (c : Q) (h : list Q) :
  (0 < c)%Q -> Forall (Qlt 0) h -> Forall (Qlt 0) (map (fun x => x * c)%Q h).
Proof.
  intros Hc Hpos. apply Forall_map. revert Hpos. apply Forall_impl.
  intros x Hx. rewrite <- (Qmult_0_l c). now apply Qmult_lt_compat_r.
Qed.

(** Multiplying every close by a positive factor leaves the score as it
    is. *)
Lemma trend_of_history_scale (c : Q) (h : list Q) :
  (0 < c)%Q -> (260 <= length h)%nat -> Forall (Qlt 0) h ->
  trend_of_history init (map (fun x => x * c)%Q h) = trend_of_history init h.
Proof.
  intros Hc Hlen Hpos.
  rewrite !trend_of_history_closed;
    [| assumption | assumption | now rewrite length_map
     | now apply Forall_scale].
  do 2 f_equal.
  rewrite (Qeq_eqR _ _ (recent_mean_scale c h)).
  rewrite (Qeq_eqR _ _ (previous_mean_scale c h)).
  rewrite !Q2R_mult.
  pose proof (Q2R_pos _ Hc).
  pose proof (Q2R_pos _ (recent_mean_pos h ltac:(lia) Hpos)).
  pose proof (Q2R_pos _ (previous_mean_pos h ltac:(lia) Hpos)).
  rewrite !ln_mult by assumption. lra.
Qed.

Lemma history_of_download (w : World) (closes : list Q) :
  spy_download w 300%nat = Ok closes -> closes <> [] ->
  history w = Some (map (fun c => c * 10)%Q closes).
Proof.
  intros Hd Hne. unfold history, get_spx_historical_data. rewrite Hd.
  destruct closes; [contradiction | reflexivity].
Qed.

(** X7: the conversion of the SPY closes to SPX level (times 10) in
    [get_spx_historical_data] has no effect on the trend: for at least 260
    positive downloaded closes the raw score is the score of the closes as
    downloaded. *)
Theorem spx_conversion_leaves_score (w : World) (p : Q) (closes : list Q) :
  spy_download w 300%nat = Ok closes ->
  (260 <= length closes)%nat -> Forall (Qlt 0) closes ->
  trend_of_history init closes =
  Ok (raw_score (fst (calculate_trend_score init w p))).
Proof.
  intros Hd Hlen Hpos.
  assert (Hne : closes <> [])
    by (intro E; rewrite E in Hlen; cbn in Hlen; lia).
  pose proof (history_of_download w closes Hd Hne) as Hh.
  assert (Hs : trend_of_history init (map (fun c => c * 10)%Q closes) =
               trend_of_history init closes)
    by (apply trend_of_history_scale; [reflexivity | assumption..]).
  rewrite (trend_of_history_closed closes Hlen Hpos) in *.
  rewrite (calculate_trend_score_long_history w p _ _ Hh
             ltac:(now rewrite length_map) Hs).
  reflexivity.
Qed.

Lemma spx_conversion_leaves_score_witness :
  trend_of_history init closes_rising =
  Ok (raw_score (fst (calculate_trend_score init world_rising 5820))).
Proof.
  apply (spx_conversion_leaves_score world_rising 5820 closes_rising).
  - reflexivity.
  - unfold closes_rising. rewrite length_map_seq. lia.
  - apply Forall_map_seq. intros i Hi. apply inject_Z_pos. lia.
Defined.

(** ** Flags and interpretation *)

Ltac settle_flags :=
  cbn; repeat split; intros;
  repeat match goal with
         | H : _ \/ _ |- _ => destruct H
         end;
  try discriminate; try reflexivity;
  try (left; reflexivity); try (right; reflexivity).

Lemma flags_of_score (s : npfloat) :
  (fgtb s 0 = true -> fltb s 0 = false) /\
  (fgtb s 0 = true <->
   interpret s = "Strongly Bullish"%string \/
   interpret s = "Weakly Bullish"%string) /\
  (fltb s 0 = true ->
   interpret s = "Weakly Bearish"%string \/
   interpret s = "Strongly Bearish"%string).
Proof.
  unfold interpret.
  destruct s as [a | | |]; cbn [fgtb fltb]; [| settle_flags..].
  destruct (Rlt_dec (2 / 100) a) as [H2 | H2];
    destruct (Rlt_dec 0 a) as [H0 | H0];
    destruct (Rlt_dec a 0) as [Hn | Hn];
    destruct (Rlt_dec (- 2 / 100) a) as [Hm | Hm];
    try (exfalso; lra); settle_flags.
Qed.

(** X8: in every result of [calculate_trend_score] the two trade flags are
    never both set, the long flag is set exactly when the interpretation is
    "Strongly Bullish" or "Weakly Bullish", and the short flag is set only
    under a bearish interpretation. *)
Theorem trend_flags_consistent (w : World) (p : Q) :
  let res := fst (calculate_trend_score init w p) in
  (should_trade_long res = true -> should_trade_short res = false) /\
  (should_trade_long res = true <->
   interpretation res = "Strongly Bullish"%string \/
   interpretation res = "Weakly Bullish"%string) /\
  (should_trade_short res = true ->
   interpretation res = "Weakly Bearish"%string \/
   interpretation res = "Strongly Bearish"%string).
Proof.
  assert (Hfb : forall res,
             res = no_trend_data \/ res = error_calculating_trend ->
             (should_trade_long res = true -> should_trade_short res = false) /\
             (should_trade_long res = true <->
              interpretation res = "Strongly Bullish"%string \/
              interpretation res = "Weakly Bullish"%string) /\
             (should_trade_short res = true ->
              interpretation res = "Weakly Bearish"%string \/
              interpretation res = "Strongly Bearish"%string)).
  { intros res [-> | ->]; cbn;
      (split; [reflexivity |];
       split; [split; [discriminate | intros [E | E]; discriminate] |
               discriminate]). }
  cbv zeta. unfold calculate_trend_score, trend_score_body.
  destruct (get_spx_historical_data w 300) as [[h |] out]; cbn [fst];
    [| apply Hfb; now left].
  destruct (length h <? ema_trend_window init)%nat; cbn [fst];
    [apply Hfb; now left |].
  destruct (trend_of_history init h) as [s | e]; cbn [bind fst];
    [| apply Hfb; now right].
  cbn [should_trade_long should_trade_short interpretation].
  apply flags_of_score.
Qed.

Lemma trend_flags_consistent_witness :
  should_trade_short (fst (calculate_trend_score init world_rising 5820))
  = false /\
  (interpretation (fst (calculate_trend_score init world_rising 5820))
   = "Strongly Bullish"%string \/
   interpretation (fst (calculate_trend_score init world_rising 5820))
   = "Weakly Bullish"%string).
Proof.
  assert (Hlong : should_trade_long
                    (fst (calculate_trend_score init world_rising 5820))
                  = true).
  { apply (proj1 (should_trade_iff world_rising 5820 _
                    (history_world_with _)
                    ltac:(rewrite length_map_seq; lia)
                    closes_rising_positive)).
    vm_compute. reflexivity. }
  destruct (trend_flags_consistent world_rising 5820) as [H1 [H2 _]].
  split; [exact (H1 Hlong) | exact (proj1 H2 Hlong)].
Defined.

(** ** More on the sizing *)

(** X9: when the margin cap does not bind, that is when the contracts
    needed for the target fit under it, the total credit reaches the target
    and overshoots it by less than one contract's credit. *)
Theorem credit_target_reached (short long : Z) (tc mm : Q) :
  (0 < Z.abs (short - long))%Z ->
  let credit := (Z.abs (short - long) * 30)%Z in
  let max_loss := (Z.abs (short - long) * 100 - credit)%Z in
  (inject_Z (Qceiling (tc / inject_Z credit) * max_loss) <= mm)%Q ->
  exists m,
    calculate_spread_metrics short long tc mm = Ok m /\
    contracts_needed m = Qceiling (tc / inject_Z credit) /\
    (tc <= inject_Z (total_credit m))%Q /\
    (inject_Z (total_credit m) < tc + inject_Z credit)%Q.
Proof.
  intros Hw credit max_loss Hfit.
  rewrite calculate_spread_metrics_eq by lia. cbv zeta.
  eexists. split; [reflexivity |]. cbn.
  unfold sized_contracts. fold credit. fold max_loss.
  rewrite (proj2 (Qltb_false _ _) Hfit).
  assert (Hc : (0 < credit)%Z) by (unfold credit; lia).
  split; [reflexivity |].
  rewrite (Z.mul_comm credit).
  split; [now apply Qceiling_mult_ge |].
  pose proof (Qceiling_mult_lt tc credit Hc) as H.
  unfold Z.sub in H. rewrite inject_Z_plus, inject_Z_opp in H. lra.
Qed.

Lemma credit_target_reached_witness :
  exists m,
    calculate_spread_metrics 5810 5805 2500 10000 = Ok m /\
    contracts_needed m = 17%Z /\
    (2500 <= inject_Z (total_credit m))%Q /\
    (inject_Z (total_credit m) < 2500 + 150)%Q.
Proof.
  destruct (credit_target_reached 5810 5805 2500 10000)
    as [m [Hm [Hc [H1 H2]]]]; [reflexivity | vm_compute; discriminate |].
  exists m. auto.
Defined.

(** X10: for a positive target and cap the margin check never raises the
    contract count above the count needed for the target; and when it
    lowers the count while one contract fits, the result is the largest
    count under the cap: one more contract would exceed it. *)
Theorem margin_resize_maximal (short long : Z) (tc mm : Q) :
  (0 < Z.abs (short - long))%Z -> (0 < tc)%Q -> (0 < mm)%Q ->
  let credit := (Z.abs (short - long) * 30)%Z in
  let max_loss := (Z.abs (short - long) * 100 - credit)%Z in
  exists m,
    calculate_spread_metrics short long tc mm = Ok m /\
    (contracts_needed m <= Qceiling (tc / inject_Z credit))%Z /\
    ((contracts_needed m < Qceiling (tc / inject_Z credit))%Z ->
     (inject_Z max_loss <= mm)%Q ->
     (inject_Z (contracts_needed m * max_loss) <= mm)%Q /\
     (mm < inject_Z ((contracts_needed m + 1) * max_loss))%Q).
Proof.
  intros Hw Htc Hmm credit max_loss.
  rewrite calculate_spread_metrics_eq by lia. cbv zeta.
  eexists. split; [reflexivity |]. cbn.
  unfold sized_contracts. fold credit. fold max_loss.
  assert (Hml : (0 < max_loss)%Z) by (unfold max_loss, credit; lia).
  assert (Hc0 : (1 <= Qceiling (tc / inject_Z credit))%Z).
  { apply Qceiling_pos, Qdiv_pos; [assumption |].
    apply inject_Z_pos. unfold credit. lia. }
  destruct (Qltb mm _) eqn:E; [| split; [lia | intro; lia]].
  apply Qltb_true in E.
  pose proof (Qfloor_div_mult_le mm max_loss Hml) as Hle.
  pose proof (Qfloor_mult_gt mm max_loss Hml) as Hgt.
  assert (Hlt : (Qfloor (mm / inject_Z max_loss)
                 < Qceiling (tc / inject_Z credit))%Z).
  { assert (H : (inject_Z (Qfloor (mm / inject_Z max_loss) * max_loss)
                 < inject_Z (Qceiling (tc / inject_Z credit) * max_loss))%Q)
      by (eapply Qle_lt_trans; eauto).
    rewrite <- Zlt_Qlt in H. nia. }
  split; [lia |].
  intros _ Hfit.
  assert (H1 : (1 <= Qfloor (mm / inject_Z max_loss))%Z).
  { apply Qfloor_ge_1. apply Qle_shift_div_l; [now apply inject_Z_pos |].
    now rewrite Qmult_1_l. }
  rewrite Z.max_r by assumption.
  split; [assumption |].
  now replace ((Qfloor (mm / inject_Z max_loss) + 1) * max_loss)%Z
    with (Qfloor (mm / inject_Z max_loss) * max_loss + max_loss)%Z by ring.
Qed.

Lemma margin_resize_maximal_witness :
  exists m,
    calculate_spread_metrics 5810 5805 2500 5000 = Ok m /\
    (inject_Z (contracts_needed m * 350) <= 5000)%Q /\
    (5000 < inject_Z ((contracts_needed m + 1) * 350))%Q.
Proof.
  destruct (margin_resize_maximal 5810 5805 2500 5000)
    as [m [Hm [_ Hmax]]]; [reflexivity | reflexivity | reflexivity |].
  exists m. split; [exact Hm |].
  apply Hmax.
  - vm_compute in Hm. injection Hm as <-. reflexivity.
  - vm_compute. discriminate.
Defined.

(** ** The dashboard's margin figures *)

Lemma get_trade_recommendations_top (Phi : R -> R) (p tc mm : Q)
    (rec : Recommendation) :
  get_trade_recommendations Phi init p tc mm = Ok rec ->
  top_estimated_credit rec = 150%Z /\
  top_max_loss_per_spread rec = 350%Z /\
  top_contracts_needed rec = sized_contracts 5 tc mm /\
  total_credit (metrics (bull_put_spread rec))
  = (150 * sized_contracts 5 tc mm)%Z /\
  total_margin (metrics (bull_put_spread rec))
  = (350 * sized_contracts 5 tc mm)%Z.
Proof.
  unfold get_trade_recommendations.
  destruct (get_strike_recommendations Phi init p Put) as [bp | e] eqn:Hbp;
    [| discriminate].
  destruct (get_strike_recommendations Phi init p Call) as [bc | e] eqn:Hbc;
    [| discriminate].
  apply get_strike_recommendations_fields in Hbp, Hbc.
  destruct Hbp as [_ [_ Hbp]]. destruct Hbc as [_ [_ Hbc]].
  cbn [bind]. rewrite !calculate_spread_metrics_eq by lia.
  cbv zeta. cbn [bind]. rewrite Hbp, Hbc.
  intro H. injection H as <-. cbn. auto.
Qed.

(** X11: the totals the dashboard recomputes are the recommender's bull put
    totals, and its "margin required" is max loss minus credit, 200 per
    contract.  Whenever the cap covers one contract's loss (350) the
    utilisation it displays is at most 400/7 percent, so it always reports
    safe usage and ticks "Margin requirement within limits". *)
Theorem app_margin_usage_safe (Phi : R -> R) (p tc mm : Q)
    (rec : Recommendation) :
  (0 < tc)%Q -> (350 <= mm)%Q ->
  get_trade_recommendations Phi init p tc mm = Ok rec ->
  app_total_credit rec = total_credit (metrics (bull_put_spread rec)) /\
  app_max_loss rec = total_margin (metrics (bull_put_spread rec)) /\
  app_margin_needed rec = (200 * top_contracts_needed rec)%Z /\
  (app_margin_util rec mm <= 400 # 7)%Q /\
  app_margin_usage (app_margin_util rec mm) = SafeUsage /\
  app_margin_within_limits (app_margin_util rec mm) = true.
Proof.
  intros Htc Hmm Hrec.
  destruct (get_trade_recommendations_top Phi p tc mm rec Hrec)
    as [Hcr [Hml [Hc [Htc' Htm]]]].
  assert (Hneed : app_margin_needed rec = (200 * top_contracts_needed rec)%Z).
  { unfold app_margin_needed, app_max_loss, app_total_credit.
    rewrite Hcr, Hml. lia. }
  assert (Hutil : (app_margin_util rec mm <= 400 # 7)%Q).
  { unfold app_margin_util.
    rewrite (proj2 (Qltb_true 0 mm)) by lra.
    rewrite Hneed, Hc.
    pose proof (sized_contracts_within_margin 5 tc mm ltac:(lia)
                  ltac:(exact Hmm)) as Hfit.
    change (5 * 100 - 5 * 30)%Z with 350%Z in Hfit.
    rewrite inject_Z_mult in *.
    change (inject_Z 350) with 350%Q in Hfit.
    change (inject_Z 200) with 200%Q.
    set (c := inject_Z (sized_contracts 5 tc mm)) in *.
    assert (E : (200 * c / mm * 100 == (20000 * c) / mm)%Q)
      by (field; lra).
    rewrite E. apply Qle_shift_div_r; lra. }
  split; [unfold app_total_credit; rewrite Hcr, Hc, Htc'; reflexivity |].
  split; [unfold app_max_loss; rewrite Hml, Hc, Htm; reflexivity |].
  split; [exact Hneed |]. split; [exact Hutil |].
  split.
  - unfold app_margin_usage.
    rewrite (proj2 (Qltb_false 90 _)) by lra.
    now rewrite (proj2 (Qltb_false 70 _)) by lra.
  - unfold app_margin_within_limits. apply Qle_bool_iff. lra.
Qed.

Lemma app_margin_usage_safe_witness :
  exists rec,
    get_trade_recommendations logistic init 5820 2500 5000 = Ok rec /\
    app_margin_needed rec = 2800%Z /\
    app_margin_usage (app_margin_util rec 5000) = SafeUsage.
Proof.
  assert (Hret : returns (get_trade_recommendations logistic init 5820 2500
                            5000) = true)
    by (rewrite get_trade_recommendations_returns; reflexivity).
  destruct (returns_true _ Hret) as [rec Hrec].
  exists rec. split; [exact Hrec |].
  destruct (app_margin_usage_safe logistic 5820 2500 5000 rec)
    as [_ [_ [Hn [_ [Hs _]]]]];
    [reflexivity | vm_compute; discriminate | exact Hrec |].
  split; [| exact Hs]. rewrite Hn.
  destruct (get_trade_recommendations_top logistic 5820 2500 5000 rec Hrec)
    as [_ [_ [Hc _]]].
  rewrite Hc. reflexivity.
Defined.

(** X12: when the margin cap does not bind (the contracts needed for a
    positive target fit under it) the dashboard ticks "Credit target is
    achievable": the credit it expects covers the target. *)
Theorem app_credit_target_achievable (Phi : R -> R) (p tc mm : Q)
    (rec : Recommendation) :
  (0 < tc)%Q ->
  (inject_Z (Qceiling (tc / 150) * 350) <= mm)%Q ->
  get_trade_recommendations Phi init p tc mm = Ok rec ->
  (tc <= inject_Z (app_total_credit rec))%Q /\
  app_credit_achievable rec tc = true.
Proof.
  intros Htc Hfit Hrec.
  destruct (get_trade_recommendations_top Phi p tc mm rec Hrec)
    as [Hcr [_ [Hc _]]].
  assert (Hsz : sized_contracts 5 tc mm = Qceiling (tc / 150)).
  { unfold sized_contracts.
    change (inject_Z (5 * 30)) with 150%Q.
    change (5 * 100 - 5 * 30)%Z with 350%Z.
    now rewrite (proj2 (Qltb_false _ _) Hfit). }
  assert (Hge : (tc <= inject_Z (app_total_credit rec))%Q).
  { unfold app_total_credit. rewrite Hcr, Hc, Hsz, Z.mul_comm.
    apply (Qceiling_mult_ge tc 150). lia. }
  split; [exact Hge |].
  unfold app_credit_achievable. apply Qle_bool_iff. lra.
Qed.

Lemma app_credit_target_achievable_witness :
  exists rec,
    get_trade_recommendations logistic init 5820 2500 10000 = Ok rec /\
    app_credit_achievable rec 2500 = true.
Proof.
  assert (Hret : returns (get_trade_recommendations logistic init 5820 2500
                            10000) = true)
    by (rewrite get_trade_recommendations_returns; reflexivity).
  destruct (returns_true _ Hret) as [rec Hrec].
  exists rec. split; [exact Hrec |].
  apply (app_credit_target_achievable logistic 5820 2500 10000 rec);
    [reflexivity | vm_compute; discriminate | exact Hrec].
Defined.

(** ** Where the pipeline returns *)

(** X13: for a positive price, and whatever the target credit and the
    margin cap, [get_trade_recommendations] returns a recommendation when the
    put target [price * (1 - 0.0015)] is at least 10 and raises
    [ZeroDivisionError] when it is below 10. *)
Theorem pipeline_returns_iff_above_grid (Phi : R -> R) (p tc mm : Q) :
  (0 < p)%Q ->
  ((10 <= p * (1 - (15 # 10000)))%Q ->
   exists rec, get_trade_recommendations Phi init p tc mm = Ok rec) /\
  ((p * (1 - (15 # 10000)) < 10)%Q ->
   get_trade_recommendations Phi init p tc mm = Raise ZeroDivisionError).
Proof.
  intro Hp.
  pose proof (get_trade_recommendations_returns_pos Phi p tc mm Hp) as Hiff.
  split.
  - intro H. apply returns_true. now apply Hiff.
  - intro H.
    destruct (get_trade_recommendations Phi init p tc mm) as [rec | e] eqn:E.
    + exfalso. assert (Hr : (10 <= p * (1 - (15 # 10000)))%Q)
        by (apply Hiff; reflexivity).
      apply (Qlt_irrefl 10). eapply Qle_lt_trans; eauto.
    + f_equal. eapply get_trade_recommendations_exn; eauto.
Qed.

Lemma pipeline_returns_iff_above_grid_witness :
  (exists rec, get_trade_recommendations logistic init 5820 2500 5000 = Ok rec)
  /\ get_trade_recommendations logistic init 10 2500 5000
     = Raise ZeroDivisionError.
Proof.
  split.
  - apply (proj1 (pipeline_returns_iff_above_grid logistic 5820 2500 5000
                    ltac:(reflexivity))).
    vm_compute. discriminate.
  - apply (proj2 (pipeline_returns_iff_above_grid logistic 10 2500 5000
                    ltac:(reflexivity))).
    reflexivity.
Defined.

